(** * dropboxfs: a shallow embedding of [dropboxfs/dbfs.py]

    The development follows the layout of the Python module:
    the metadata translator [_md_to_stat], the snapshot directory lister
    [_Directory], the byte-range reader [_File], the change poller
    [delta_thread] and the [FileSystem] facade.

    Python values that the module only passes around are kept abstract;
    everything the module inspects is spelled out.  Fallible code returns
    a [result]; code that mutates an object returns the new object. *)

From Stdlib Require Import ZArith List String Ascii Bool Lia.
Import ListNotations.

Local Open Scope string_scope.
Local Open Scope Z_scope.
Local Open Scope list_scope.

(* ================================================================== *)
(** * Python-level preliminaries *)
(* ================================================================== *)

(** [datetime.datetime] values, ordered as points on a time line. *)
Definition datetime := Z.

(** [bytes] objects. *)
Definition bytes := list Byte.byte.

(** The exceptions that the module raises, catches or lets through. *)
Inductive exn : Type :=
| OSError (errno : Z) (strerror : string)
| NameError (name : string)
| AttributeError (attr : string)
| TypeError (what : string)
| ValueError (what : string)
| ErrorResponse (error_msg : string)        (* dropbox.rest.ErrorResponse *)
| ApiError (error_is_path : bool)           (* dropbox.exceptions.ApiError *)
| ListFolderContinueError                   (* dropbox.files.ListFolderContinueError *)
| OtherException (descr : string).

(** A computation either returns a value or raises. *)
Inductive result (A : Type) : Type :=
| Ok (a : A)
| Raise (e : exn).
Arguments Ok {A} a.
Arguments Raise {A} e.

Definition bind {A B : Type} (r : result A) (k : A -> result B) : result B :=
  match r with
  | Ok a => k a
  | Raise e => Raise e
  end.

Notation "x <- r ;; k" := (bind r (fun x => k))
  (at level 61, r at next level, right associativity).

(** The [errno] module and [os.strerror], at the values the module uses. *)
Module errno.
Definition ENOENT : Z := 2.
Definition EISDIR : Z := 21.
Definition EINVAL : Z := 22.
End errno.

Definition strerror (code : Z) : string :=
  if code =? errno.ENOENT then "No such file or directory"
  else if code =? errno.EISDIR then "Is a directory"
  else if code =? errno.EINVAL then "Invalid argument"
  else "Unknown error".

(** ** Name resolution

    A bare name in a function body is looked up among the function's
    locals and then among the names bound at module level: the imports,
    and the module's own definitions.  None of the names looked up below
    is a Python builtin. *)

Definition module_imports : list string :=
  [ "collections"; "datetime"; "errno"; "io"; "itertools"; "logging"; "os";
    "threading"; "dropbox"; "Path" ].

Definition module_definitions : list string :=
  [ "log"; "_md_to_stat"; "_Directory"; "_File"; "Change";
    "FILE_NOTIFY_CHANGE_FILE_NAME"; "FILE_NOTIFY_CHANGE_DIR_NAME";
    "FILE_NOTIFY_CHANGE_ATRIBUTES"; "FILE_NOTIFY_CHANGE_SIZE";
    "FILE_NOTIFY_CHANGE_LAST_WRITE"; "FILE_NOTIFY_CHANGE_LAST_ACCESS";
    "FILE_NOTIFY_CHANGE_CREATION"; "FILE_NOTIFY_CHANGE_EA";
    "FILE_NOTIFY_CHANGE_SECURITY"; "FILE_NOTIFY_CHANGE_STREAM_NAME";
    "FILE_NOTIFY_CHANGE_STREAM_SIZE"; "FILE_NOTIFY_CHANGE_STREAM_WRITE";
    "delta_thread"; "FileSystem" ].

Definition module_globals : list string :=
  module_imports ++ module_definitions.

(** The values a name can be bound to, as far as the module cares. *)
Inductive pyval : Type :=
| PyInt (z : Z)
| PyBytes (b : bytes)
| PyGlobal (name : string)      (* a module, class or function object *)
| PyObject (descr : string)     (* any other object *)
| PyNone.

Fixpoint assoc (name : string) (env : list (string * pyval)) : option pyval :=
  match env with
  | [] => None
  | (k, v) :: env' => if String.eqb k name then Some v else assoc name env'
  end.

Definition load_name (locals : list (string * pyval)) (name : string)
  : result pyval :=
  match assoc name locals with
  | Some v => Ok v
  | None =>
      if existsb (String.eqb name) module_globals
      then Ok (PyGlobal name)
      else Raise (NameError name)
  end.

(** [a + b] on the values above ([int + int] only). *)
Definition py_add (a b : pyval) : result pyval :=
  match a, b with
  | PyInt x, PyInt y => Ok (PyInt (x + y))
  | PyBytes x, PyBytes y => Ok (PyBytes (x ++ y)%list)
  | _, _ => Raise (TypeError "unsupported operand type(s) for +")
  end.

Definition as_int (v : pyval) : result Z :=
  match v with
  | PyInt z => Ok z
  | _ => Raise (TypeError "an integer is required")
  end.

(** [time.sleep(secs)]: the name [time] has to resolve first. *)
Definition time_sleep (locals : list (string * pyval)) (secs : Z)
  : result Z :=
  _ <- load_name locals "time" ;; Ok secs.

(** ** Strings *)

(** [s.startswith(p)] *)
Definition startswith (s p : string) : bool := String.prefix p s.

(** [s[n:]] *)
Fixpoint slice_from (n : nat) (s : string) : string :=
  match n, s with
  | O, _ => s
  | S n', EmptyString => EmptyString
  | S n', String _ s' => slice_from n' s'
  end.

(** [s.find(sub)]: the first index of [sub] in [s], or [-1]. *)
Definition find (s sub : string) : Z :=
  match String.index 0 sub s with
  | Some i => Z.of_nat i
  | None => -1
  end.

(* ================================================================== *)
(** * Remote entry descriptors ([dropbox.files.*Metadata]) *)
(* ================================================================== *)

Inductive Metadata : Type :=
| FileMetadata (name path_lower id : string)
               (client_modified server_modified : datetime) (size : Z)
| FolderMetadata (name path_lower : string) (id : option string)
| DeletedMetadata (name path_lower : string).

Definition md_name (md : Metadata) : string :=
  match md with
  | FileMetadata n _ _ _ _ _ | FolderMetadata n _ _ | DeletedMetadata n _ => n
  end.

Definition md_path_lower (md : Metadata) : string :=
  match md with
  | FileMetadata _ p _ _ _ _ | FolderMetadata _ p _ | DeletedMetadata _ p => p
  end.

Definition md_id (md : Metadata) : result string :=
  match md with
  | FileMetadata _ _ i _ _ _ => Ok i
  | FolderMetadata _ _ (Some i) => Ok i
  | FolderMetadata _ _ None => Raise (AttributeError "id")
  | DeletedMetadata _ _ => Raise (AttributeError "id")
  end.

Definition md_size (md : Metadata) : result Z :=
  match md with
  | FileMetadata _ _ _ _ _ sz => Ok sz
  | _ => Raise (AttributeError "size")
  end.

Definition md_client_modified (md : Metadata) : result datetime :=
  match md with
  | FileMetadata _ _ _ cm _ _ => Ok cm
  | _ => Raise (AttributeError "client_modified")
  end.

(** [isinstance(md, dropbox.files.X)] *)
Definition is_FolderMetadata (md : Metadata) : bool :=
  match md with FolderMetadata _ _ _ => true | _ => false end.
Definition is_FileMetadata (md : Metadata) : bool :=
  match md with FileMetadata _ _ _ _ _ _ => true | _ => false end.
Definition is_DeletedMetadata (md : Metadata) : bool :=
  match md with DeletedMetadata _ _ => true | _ => false end.

(** A page of a listing or of the change feed. *)
Record ListFolderResult : Type := mkListFolderResult {
  entries : list Metadata;
  cursor : string;
  has_more : bool
}.

(* ================================================================== *)
(** * The metadata translator *)
(* ================================================================== *)

(** The namedtuple ["Stat"]. *)
Record Stat : Type := mkStat {
  st_name : string;
  st_type : string;
  st_size : Z;
  st_mtime : datetime
}.

(** [_md_to_stat(md)]; [now] is what [datetime.datetime.now()] returns
    when it is read (it is read for folders only). *)
Definition _md_to_stat (now : datetime) (md : Metadata) : result Stat :=
  let name := md_name md in
  let type := if is_FolderMetadata md then "directory" else "file" in
  size <- (if is_FolderMetadata md then Ok 0 else md_size md) ;;
  mtime <- (if negb (is_FolderMetadata md) then md_client_modified md
            else Ok now) ;;
  Ok (mkStat name type size mtime).


(* ================================================================== *)
(** * The snapshot directory lister ([_Directory]) *)
(* ================================================================== *)

Module Directory.

(** Requests to the listing backend ([self._fs._clientv2]). *)
Inductive api_call : Type :=
| files_list_folder (path : string)
| files_list_folder_continue (cursor : string).

(** The world a listing runs in: two clocks, read one value at a time,
    and a backend that answers the requests in the order they arrive.
    [replies] is the sequence of pages (or errors) the backend returns;
    [calls] records the requests it has received. *)
Record World : Type := mkWorld {
  utcnow : nat -> datetime;
  now : nat -> datetime;
  ticks : nat;
  replies : list (result ListFolderResult);
  calls : list api_call
}.

Definition tick (w : World) : World :=
  mkWorld (utcnow w) (now w) (S (ticks w)) (replies w) (calls w).

Definition answer (c : api_call) (rs : list (result ListFolderResult))
           (w : World) : World :=
  mkWorld (utcnow w) (now w) (ticks w) rs (calls w ++ [c]).

(** Where the generator [__it] is suspended. *)
Inductive frame : Type :=
| Created                               (* body not entered yet *)
| AtFetch (start : datetime)            (* at the head of the while loop *)
| AtYield (start : datetime) (rest : list Metadata) (res : ListFolderResult)
                                        (* at [yield], [rest] still to visit *)
| Finished.                             (* returned or raised *)

Record _Directory : Type := mkDirectory {
  _path : string;
  _id : string;
  _cursor : option string;
  _md : frame
}.

Definition set_cursor (c : option string) (d : _Directory) : _Directory :=
  mkDirectory (_path d) (_id d) c (_md d).
Definition set_md (fr : frame) (d : _Directory) : _Directory :=
  mkDirectory (_path d) (_id d) (_cursor d) fr.

(** What [next(self._md)] does: [Yield f st] hands out [st], the
    translation of entry [f]; [Pending] says that the backend has not
    answered yet (the recorded replies are used up). *)
Inductive signal : Type :=
| Yield (f : Metadata) (st : Stat)
| StopIteration
| Raised (e : exn)
| Pending.

(** [isinstance(f, FileMetadata) and f.server_modified > start] *)
Definition newer_than (start : datetime) (f : Metadata) : bool :=
  match f with
  | FileMetadata _ _ _ _ server_modified _ => server_modified >? start
  | _ => false
  end.

(** The [for f in res.entries] loop, up to its next [yield]. *)
Inductive scan_result : Type :=
| ScanYield (f : Metadata) (rest : list Metadata)
| ScanBreak
| ScanDone.

Fixpoint scan (start : datetime) (es : list Metadata) : scan_result :=
  match es with
  | [] => ScanDone
  | f :: rest =>
      if is_DeletedMetadata f then scan start rest
      else if newer_than start f then ScanBreak
      else ScanYield f rest
  end.

(** The request of one pass of the while loop. *)
Definition request (d : _Directory) : api_call :=
  match _cursor d with
  | None => files_list_folder (if _path d =? "/" then "" else _path d)%string
  | Some c => files_list_folder_continue c
  end.

(** One pass of the while loop from the for loop on; [again] is the
    next pass. *)
Definition for_loop (start : datetime) (es : list Metadata)
           (res : ListFolderResult) (d : _Directory) (w : World)
           (again : _Directory -> World -> signal * _Directory * World)
  : signal * _Directory * World :=
  match scan start es with
  | ScanYield f rest =>
      let w' := if is_FolderMetadata f then tick w else w in
      match _md_to_stat (now w (ticks w)) f with
      | Ok st => (Yield f st, set_md (AtYield start rest res) d, w')
      | Raise e => (Raised e, set_md Finished d, w')
      end
  | ScanBreak =>
      (* stop = True; break; self._cursor = res.cursor *)
      (StopIteration, set_md Finished (set_cursor (Some (cursor res)) d), w)
  | ScanDone =>
      let d' := set_cursor (Some (cursor res)) d in
      if negb (has_more res)
      then (StopIteration, set_md Finished d', w)
      else again d' w
  end.

(** The while loop, from its head. *)
Fixpoint while_loop (start : datetime) (rs : list (result ListFolderResult))
         (d : _Directory) (w : World) : signal * _Directory * World :=
  match rs with
  | [] => (Pending, set_md (AtFetch start) d, w)
  | r :: rs' =>
      let w' := answer (request d) rs' w in
      match r with
      | Raise e => (Raised e, set_md Finished d, w')
      | Ok res => for_loop start (entries res) res d w' (while_loop start rs')
      end
  end.

(** [next(self)], which is [next(self._md)]. *)
Definition __next__ (d : _Directory) (w : World)
  : signal * _Directory * World :=
  match _md d with
  | Created =>
      let start := utcnow w (ticks w) in
      while_loop start (replies w) (set_cursor None d) (tick w)
  | AtFetch start => while_loop start (replies w) d w
  | AtYield start rest res =>
      for_loop start rest res d w
               (fun d' w' => while_loop start (replies w') d' w')
  | Finished => (StopIteration, d, w)
  end.

(** [read()]: the next record, or [None] at the end of the sequence. *)
Inductive read_result : Type :=
| Entry (f : Metadata) (st : Stat)
| EndOfSequence
| ReadRaised (e : exn)
| ReadPending.

Definition read (d : _Directory) (w : World)
  : read_result * _Directory * World :=
  match __next__ d w with
  | (Yield f st, d', w') => (Entry f st, d', w')
  | (StopIteration, d', w') => (EndOfSequence, d', w')
  | (Raised e, d', w') => (ReadRaised e, d', w')
  | (Pending, d', w') => (ReadPending, d', w')
  end.

(** [reset()]: a new generator object; its body has not run yet. *)
Definition reset (d : _Directory) : _Directory := set_md Created d.

(** [_Directory(fs, path, id_)] *)
Definition __init__ (path id_ : string) : _Directory :=
  reset (mkDirectory path id_ None Finished).

Definition close (d : _Directory) : _Directory := d.

(** [n] calls of [read()]; the entries handed out, in order. *)
Fixpoint read_many (n : nat) (d : _Directory) (w : World)
  : list (Metadata * Stat) * _Directory * World :=
  match n with
  | O => ([], d, w)
  | S n' =>
      match read d w with
      | (Entry f st, d', w') =>
          let '(l, d'', w'') := read_many n' d' w' in
          ((f, st) :: l, d'', w'')
      | (_, d', w') => read_many n' d' w'
      end
  end.

(** An entry that a listing started at [T] may hand out: not a
    tombstone, and if a file, not modified after [T]. *)
Definition within_snapshot (T : datetime) (f : Metadata) : Prop :=
  is_DeletedMetadata f = false /\
  forall name path_lower id client_modified server_modified size,
    f = FileMetadata name path_lower id client_modified server_modified size ->
    server_modified <= T.

(** The boundary time of the enumeration that handle [d] is in, in
    world [w]: the value of [start], which a generator that has not
    begun is about to read off the clock. *)
Definition boundary (d : _Directory) (w : World) : option datetime :=
  match _md d with
  | Created => Some (utcnow w (ticks w))
  | AtFetch start | AtYield start _ _ => Some start
  | Finished => None
  end.

(** A step of the generator: what it may yield and where it stops. *)
Definition step_ok (start : datetime)
           (out : signal * _Directory * World) : Prop :=
  let '(sig, d', _) := out in
  (forall f st, sig = Yield f st ->
                within_snapshot start f
                /\ exists now, _md_to_stat now f = Ok st)
  /\ (_md d' = Finished
      \/ _md d' = AtFetch start
      \/ exists rest res, _md d' = AtYield start rest res).

(** The boundary does not move while the enumeration goes on. *)
Definition same_enumeration (T : datetime) (d : _Directory) : Prop :=
  _md d = Finished
  \/ _md d = AtFetch T
  \/ exists rest res, _md d = AtYield T rest res.

End Directory.

(* ================================================================== *)
(** * The byte-range reader ([_File]) *)
(* ================================================================== *)

Module File.

(** [_oid] stands for the identity of the Python object. *)
Record _File : Type := mkFile {
  _path_lower : string;
  _id : string;
  _offset : Z;
  _oid : nat
}.

Definition set_offset (o : Z) (f : _File) : _File :=
  mkFile (_path_lower f) (_id f) o (_oid f).

(** [size if size >= 0 else None] *)
Definition length_arg (size : Z) : option Z :=
  if size >=? 0 then Some size else None.

Section Backend.

(** [self._fs._client.get_file(path, start=, length=)] followed by
    [resp.read()]: the bytes, or the exception the client raises. *)
Variable get_file : string -> Z -> option Z -> result bytes.

(** [pread(offset, size=-1)] *)
Definition pread (self : _File) (offset size : Z) : result bytes :=
  match get_file (_path_lower self) offset (length_arg size) with
  | Ok b => Ok b
  | Raise (ErrorResponse error_msg) =>
      if (error_msg =? "Path is a directory")%string
      then Raise (OSError errno.EISDIR (strerror errno.EISDIR))
      else Raise (ErrorResponse error_msg)
  | Raise e => Raise e
  end.

(** [read(size=-1)]:
<<
    toret = self.pread(offset, size)
    self._offset += toret
    return toret
>>
    The locals are [self] and [size]. *)
Definition read (self : _File) (size : Z) : result bytes * _File :=
  let locals := [("self", PyObject "_File"); ("size", PyInt size)] in
  match (o <- load_name locals "offset" ;;
         offset <- as_int o ;;
         pread self offset size) with
  | Raise e => (Raise e, self)
  | Ok toret =>
      match (v <- py_add (PyInt (_offset self)) (PyBytes toret) ;;
             as_int v) with
      | Raise e => (Raise e, self)
      | Ok o' => (Ok toret, set_offset o' self)
      end
  end.

(** [readall()] *)
Definition readall (self : _File) : result bytes * _File :=
  read self (-1).

End Backend.

End File.

(* ================================================================== *)
(** * Change notification: watches and the poller ([delta_thread]) *)
(* ================================================================== *)

Module Watch.

(** The namedtuple ["Change"]. *)
Record Change : Type := mkChange {
  action : string;
  filename : string
}.

(** What a callback is called with: the string ['reset'] or a list of
    changes. *)
Inductive cb_arg : Type :=
| CbReset
| CbChanges (to_sub : list Change).

(** Watcher-supplied code: [cb_id] is the identity of the callable,
    [cb_call arg] says whether calling it with [arg] raises. *)
Record callback : Type := mkCallback {
  cb_id : nat;
  cb_call : cb_arg -> option exn
}.

(** The tuple [(cb, dir_handle, completion_filter, watch_tree)].
    [create_watch] lets in [_File] handles only. *)
Record tag : Type := mkTag {
  cb : callback;
  dir_handle : File._File;
  completion_filter : Z;
  watch_tree : bool
}.

(** [ndirpath + ("" if ndirpath == "/" else "/")] *)
Definition prefix_ndirpath (ndirpath : string) : string :=
  (ndirpath ++ (if ndirpath =? "/" then "" else "/"))%string.

(** Whether an entry at [path_lower] passes the two [continue] guards
    of the loop over [res.entries]. *)
Definition routed (watch_tree : bool) (ndirpath path_lower : string) : bool :=
  let prefix := prefix_ndirpath ndirpath in
  if negb (startswith path_lower prefix) then false
  else if negb watch_tree
          && negb (find (slice_from (String.length prefix) path_lower) "/"
                   =? -1)
  then false
  else true.

Definition change_of (entry : Metadata) : Change :=
  mkChange (if is_DeletedMetadata entry then "removed" else "modified")
           (md_name entry).

(** The loop over [res.entries]; [to_sub] is the list built so far. *)
Fixpoint collect (watch_tree : bool) (ndirpath : string)
         (es : list Metadata) (to_sub : list Change) : list Change :=
  match es with
  | [] => to_sub
  | entry :: es' =>
      if routed watch_tree ndirpath (md_path_lower entry)
      then collect watch_tree ndirpath es' (to_sub ++ [change_of entry])
      else collect watch_tree ndirpath es' to_sub
  end.

(** What the poller does that can be seen from outside. *)
Inductive poll_call : Type :=
| files_list_folder_get_latest_cursor (path : string) (recursive : bool)
| files_list_folder_continue (cursor : string).

Inductive obs : Type :=
| Called (c : poll_call)
| Logged (msg : string)
| Invoked (position : nat) (id : nat) (arg : cb_arg) (raised : option exn)
| Slept (secs : Z).

(** The body of [for (cb, dir_handle, ...) in watches] for the watch at
    [position] of the snapshot.  The second component is the exception
    that leaves the body, if one does. *)
Definition serve (needs_reset : bool) (res : ListFolderResult)
           (position : nat) (t : tag) : list obs * option exn :=
  let run arg := Invoked position (cb_id (cb t)) arg (cb_call (cb t) arg) in
  let after_reset :=
    let to_sub :=
      collect (watch_tree t) (File._path_lower (dir_handle t))
              (entries res) [] in
    match to_sub with
    | [] => []
    | _ :: _ =>
        (* try: cb(to_sub) except: log.exception(...) *)
        run (CbChanges to_sub)
        :: match cb_call (cb t) (CbChanges to_sub) with
           | Some _ => [Logged "failure during watch callback"]
           | None => []
           end
    end in
  if needs_reset then
    (* cb('reset') *)
    match cb_call (cb t) CbReset with
    | Some e => ([run CbReset], Some e)
    | None => (run CbReset :: after_reset, None)
    end
  else (after_reset, None).

Fixpoint serve_all (needs_reset : bool) (res : ListFolderResult)
         (position : nat) (watches : list tag) : list obs * option exn :=
  match watches with
  | [] => ([], None)
  | t :: watches' =>
      match serve needs_reset res position t with
      | (tr, Some e) => (tr, Some e)
      | (tr, None) =>
          let '(tr', r) := serve_all needs_reset res (S position) watches' in
          (tr ++ tr', r)
      end
  end.

(** The local variables of [delta_thread]. *)
Record poller : Type := mkPoller {
  p_cursor : option string;
  needs_reset : bool
}.

(** What one pass of [while True] meets: the backend's answers and the
    registry at the moment the snapshot is taken.  [latest_cursor] is
    asked for only when the poller holds no cursor. *)
Record cycle : Type := mkCycle {
  latest_cursor : result string;
  changes : result ListFolderResult;
  registered : list tag
}.

Inductive status : Type :=
| Alive (p : poller)
| Died (e : exn).

(** The names bound in the body of [delta_thread]. *)
Definition delta_thread_locals : list (string * pyval) :=
  map (fun n => (n, PyObject n))
      [ "dbfs"; "cursor"; "needs_reset"; "res"; "e"; "watches"; "cb";
        "dir_handle"; "completion_filter"; "watch_tree"; "to_sub";
        "ndirpath"; "prefix_ndirpath"; "entry"; "basename"; "action" ].

(** The [try] block: the calls made, the cursor afterwards, and the
    batch or the exception. *)
Definition fetch (p : poller) (c : cycle)
  : list obs * option string * result ListFolderResult :=
  match p_cursor p with
  | None =>
      match latest_cursor c with
      | Raise e =>
          ([Called (files_list_folder_get_latest_cursor "" true)], None,
           Raise e)
      | Ok cur =>
          ([Called (files_list_folder_get_latest_cursor "" true);
            Called (files_list_folder_continue cur)], Some cur, changes c)
      end
  | Some cur => ([Called (files_list_folder_continue cur)], Some cur, changes c)
  end.

Definition is_ListFolderContinueError (e : exn) : bool :=
  match e with ListFolderContinueError => true | _ => false end.

(** One pass of [while True]. *)
Definition pass (p : poller) (c : cycle) : list obs * status :=
  let '(tr, cur, r) := fetch p c in
  match r with
  | Raise e =>
      let p' := if is_ListFolderContinueError e
                then mkPoller None true
                else mkPoller cur (needs_reset p) in
      let tr' := tr ++ [Logged "failure while doing list folder"] in
      match time_sleep delta_thread_locals 60 with
      | Raise e' => (tr', Died e')
      | Ok secs => (tr' ++ [Slept secs], Alive p')
      end
  | Ok res =>
      match serve_all (needs_reset p) res 0 (registered c) with
      | (tr', Some e) => (tr ++ tr', Died e)
      | (tr', None) =>
          let p' := mkPoller (Some (cursor res)) false in
          if negb (has_more res) then
            match time_sleep delta_thread_locals 30 with
            | Raise e' => (tr ++ tr', Died e')
            | Ok secs => (tr ++ tr' ++ [Slept secs], Alive p')
            end
          else (tr ++ tr', Alive p')
      end
  end.

(** The loop, over the passes the world allows. *)
Fixpoint loop (p : poller) (cs : list cycle) : list obs * status :=
  match cs with
  | [] => ([], Alive p)
  | c :: cs' =>
      match pass p c with
      | (tr, Died e) => (tr, Died e)
      | (tr, Alive p') =>
          let '(tr', s) := loop p' cs' in (tr ++ tr', s)
      end
  end.

(** [delta_thread(dbfs)] *)
Definition delta_thread (cs : list cycle) : list obs * status :=
  loop (mkPoller None true) cs.

(** The resets and the change lists delivered to the watch at
    [position], read off a trace. *)
Definition is_reset_for (position : nat) (o : obs) : bool :=
  match o with
  | Invoked i _ CbReset _ => Nat.eqb i position
  | _ => false
  end.

Definition resets_for (position : nat) (tr : list obs) : nat :=
  List.length (filter (is_reset_for position) tr).

Definition is_invocation (o : obs) : bool :=
  match o with Invoked _ _ _ _ => true | _ => false end.

(** Following the spec's words: the scope of a watch covers the scope
    directory itself and, if recursive, all descendants; if not, only
    direct children (no further separator after stripping the scope
    prefix). *)
Definition spec_in_scope (recursive : bool) (scope path : string) : bool :=
  (path =? scope)%string
  || (startswith path (prefix_ndirpath scope)
      && (recursive
          || (find (slice_from (String.length (prefix_ndirpath scope)) path)
                   "/" =? -1))).

End Watch.

(* ================================================================== *)
(** * The facade ([FileSystem]) *)
(* ================================================================== *)

Module FileSystem.

Import Watch.

Record FileSystem : Type := mkFileSystem {
  _access_token : string;
  _watches : list tag
}.

(** [FileSystem(access_token)] *)
Definition __init__ (access_token : string) : FileSystem :=
  mkFileSystem access_token [].

(** The objects a caller can pass where a handle is expected. *)
Inductive handle : Type :=
| HFile (f : File._File)                  (* made by [open] *)
| HDirectory (d : Directory._Directory)   (* made by [open_directory] *)
| HOther (descr : string).

(** [isinstance(h, _File)] *)
Definition is_File (h : handle) : bool :=
  match h with HFile _ => true | _ => false end.

(** Requests to the metadata backend. *)
Inductive md_call : Type :=
| files_get_metadata (path : string).

Section Backend.

(** [self._clientv2.files_get_metadata(p)] *)
Variable get_metadata : string -> result Metadata.

(** [_get_md_inner(path)], with [p = str(path)]; the second component
    lists the backend requests made. *)
Definition _get_md_inner (p : string) : result Metadata * list md_call :=
  if (p =? "/")%string
  then (Ok (FolderMetadata "/" "/" None), [])
  else
    (match get_metadata p with
     | Ok md => Ok md
     | Raise (ApiError error_is_path) =>
         if error_is_path
         then Raise (OSError errno.ENOENT (strerror errno.ENOENT))
         else Raise (ApiError error_is_path)
     | Raise e => Raise e
     end,
     [files_get_metadata p]).

(** [_get_md(path)] *)
Definition _get_md (now : datetime) (p : string)
  : result Stat * list md_call :=
  let '(r, log) := _get_md_inner p in
  (md <- r ;; _md_to_stat now md, log).

(** ["/" if md.path_lower == "/" else md.id] *)
Definition handle_id (md : Metadata) : result string :=
  if (md_path_lower md =? "/")%string then Ok "/" else md_id md.

(** [open(path)]; [oid] is the identity of the new object. *)
Definition open (oid : nat) (p : string)
  : result File._File * list md_call :=
  let '(r, log) := _get_md_inner p in
  (md <- r ;;
   i <- handle_id md ;;
   Ok (File.mkFile (md_path_lower md) i 0 oid), log).

(** [open_directory(path)] *)
Definition open_directory (p : string)
  : result Directory._Directory * list md_call :=
  let '(r, log) := _get_md_inner p in
  (md <- r ;;
   i <- handle_id md ;;
   Ok (Directory.__init__ (md_path_lower md) i), log).

(** [stat(path)] *)
Definition stat (now : datetime) (p : string)
  : result Stat * list md_call :=
  _get_md now p.

(** [fstat(fobj)] *)
Definition fstat (now : datetime) (fobj : File._File)
  : result Stat * list md_call :=
  _get_md now (File._id fobj).

End Backend.

(** [stat_has_attr(attr)] *)
Definition stat_has_attr (attr : string) : bool :=
  existsb (String.eqb attr) ["type"; "size"; "mtime"].

(** Equality of registration tuples: callables and handles compare by
    identity. *)
Definition tag_eqb (a b : tag) : bool :=
  Nat.eqb (cb_id (cb a)) (cb_id (cb b))
  && Nat.eqb (File._oid (dir_handle a)) (File._oid (dir_handle b))
  && (completion_filter a =? completion_filter b)
  && Bool.eqb (watch_tree a) (watch_tree b).

(** The closure [stop] returned by [create_watch] holds the tuple. *)
Record stop_capability : Type := mkStop { stop_tag : tag }.

(** [create_watch(cb, dir_handle, completion_filter, watch_tree)] *)
Definition create_watch (self : FileSystem) (cb : callback) (h : handle)
           (completion_filter : Z) (watch_tree : bool)
  : result stop_capability * FileSystem :=
  match h with
  | HFile f =>
      let t := mkTag cb f completion_filter watch_tree in
      (Ok (mkStop t),
       mkFileSystem (_access_token self) (_watches self ++ [t]))
  | _ => (Raise (OSError errno.EINVAL (strerror errno.EINVAL)), self)
  end.

(** [list.remove]: drops the first equal element. *)
Fixpoint list_remove (t : tag) (l : list tag) : result (list tag) :=
  match l with
  | [] => Raise (ValueError "list.remove(x): x not in list")
  | x :: l' =>
      if tag_eqb x t then Ok l'
      else l'' <- list_remove t l' ;; Ok (x :: l'')
  end.

(** Calling the closure returned by [create_watch]. *)
Definition stop (s : stop_capability) (self : FileSystem)
  : result unit * FileSystem :=
  match list_remove (stop_tag s) (_watches self) with
  | Ok l => (Ok tt, mkFileSystem (_access_token self) l)
  | Raise e => (Raise e, self)
  end.

End FileSystem.
(* ================================================================== *)
(** * Sample worlds *)
(* ================================================================== *)

Module Sample.

(** A remote store with a directory [/docs], a file [/docs/a.txt]
    holding three bytes, and a transport that fails elsewhere. *)
Definition a_txt : bytes := [Byte.x68; Byte.x69; Byte.x21].

Definition byte_range (offset : Z) (len : option Z) (b : bytes) : bytes :=
  let rest := skipn (Z.to_nat offset) b in
  match len with
  | Some n => firstn (Z.to_nat n) rest
  | None => rest
  end.

Definition get_file (p : string) (offset : Z) (len : option Z)
  : result bytes :=
  if (p =? "/docs")%string then Raise (ErrorResponse "Path is a directory")
  else if (p =? "/docs/a.txt")%string then Ok (byte_range offset len a_txt)
  else Raise (ErrorResponse "Network unreachable").

Definition get_metadata (p : string) : result Metadata :=
  if (p =? "/docs")%string then Ok (FolderMetadata "docs" "/docs" (Some "id:docs"))
  else if (p =? "/docs/a.txt")%string
       then Ok (FileMetadata "a.txt" "/docs/a.txt" "id:a" 100 100 3)
  else Raise (ApiError true).

(** A callback that never raises, and one that raises on ['reset']. *)
Definition quiet : Watch.callback := Watch.mkCallback 1 (fun _ => None).

Definition touchy : Watch.callback :=
  Watch.mkCallback 2
    (fun arg => match arg with
                | Watch.CbReset => Some (OtherException "watcher failed")
                | Watch.CbChanges _ => None
                end).

(** A callback that raises on every change list. *)
Definition grumpy : Watch.callback :=
  Watch.mkCallback 3
    (fun arg => match arg with
                | Watch.CbReset => None
                | Watch.CbChanges _ => Some (OtherException "watcher failed")
                end).

(** Watches on [/docs], not recursive, one per callback. *)
Definition docs_handle (oid : nat) : File._File :=
  File.mkFile "/docs" "id:docs" 0 oid.

Definition watch_quiet : Watch.tag := Watch.mkTag quiet (docs_handle 11) 0 false.
Definition watch_touchy : Watch.tag := Watch.mkTag touchy (docs_handle 12) 0 false.
Definition watch_grumpy : Watch.tag := Watch.mkTag grumpy (docs_handle 13) 0 false.

(** A batch of the change feed: a tombstone for [/docs/a.txt] and a
    modification of [/docs/sub/c.txt]; more pages follow. *)
Definition batch : ListFolderResult :=
  mkListFolderResult
    [ DeletedMetadata "a.txt" "/docs/a.txt";
      FileMetadata "c.txt" "/docs/sub/c.txt" "id:c" 100 100 5 ]
    "c1" true.

(** A listing of [/docs] that starts at time 105.  The first page holds
    a file modified at 100, a tombstone and a folder; the second a file
    modified at 110 followed by one modified at 90. *)
Definition a_md : Metadata := FileMetadata "a.txt" "/docs/a.txt" "id:a" 100 100 3.
Definition sub_md : Metadata := FolderMetadata "sub" "/docs/sub" (Some "id:sub").
Definition b_md : Metadata := FileMetadata "b.txt" "/docs/b.txt" "id:b" 110 110 4.
Definition c_md : Metadata := FileMetadata "c.txt" "/docs/c.txt" "id:c" 90 90 5.

Definition listing : Directory.World :=
  Directory.mkWorld (fun _ => 105) (fun _ => 106) 0
    [ Ok (mkListFolderResult
            [a_md; DeletedMetadata "old.txt" "/docs/old.txt"; sub_md] "p1" true);
      Ok (mkListFolderResult [b_md; c_md] "p2" false) ]
    [].

(** A file uploaded before 105 whose client-side modification time is
    later. *)
Definition late_md : Metadata :=
  FileMetadata "late.txt" "/docs/late.txt" "id:late" 200 100 1.

Definition late_listing : Directory.World :=
  Directory.mkWorld (fun _ => 105) (fun _ => 106) 0
    [ Ok (mkListFolderResult [late_md] "p1" false) ] [].

End Sample.

(* ================================================================== *)
(** * Notions used in further statements *)
(* ================================================================== *)

Module Listing.

Import Directory.

(** The entries of a page in front of the first file that is newer than
    [start]. *)
Fixpoint until_newer (start : datetime) (es : list Metadata) : list Metadata :=
  match es with
  | [] => []
  | f :: es' => if newer_than start f then [] else f :: until_newer start es'
  end.

Definition live (f : Metadata) : bool := negb (is_DeletedMetadata f).

(** What a page contributes to a listing started at [start], and whether
    the page holds the snapshot boundary. *)
Definition kept (start : datetime) (es : list Metadata) : list Metadata :=
  filter live (until_newer start es).

Definition hit (start : datetime) (es : list Metadata) : bool :=
  existsb (newer_than start) es.

(** The entries that a listing started at [start] hands out when the
    backend answers with [rs]: page after page, up to the first error,
    the first page with the boundary or the first page without a
    successor. *)
Fixpoint visible (start : datetime) (rs : list (result ListFolderResult))
  : list Metadata :=
  match rs with
  | [] => []
  | Raise _ :: _ => []
  | Ok res :: rs' =>
      kept start (entries res)
      ++ (if hit start (entries res) || negb (has_more res) then []
          else visible start rs')
  end.

(** The entries still to come from handle [d] in world [w]. *)
Definition remaining (d : _Directory) (w : World) : list Metadata :=
  match _md d with
  | Created => visible (utcnow w (ticks w)) (replies w)
  | AtFetch start => visible start (replies w)
  | AtYield start rest res =>
      kept start rest
      ++ (if hit start rest || negb (has_more res) then []
          else visible start (replies w))
  | Finished => []
  end.

(** A generator step seen against the list [l] of entries still to
    come. *)
Definition hands_out (l : list Metadata)
           (out : signal * _Directory * World) : Prop :=
  let '(sig, d', w') := out in
  match l with
  | [] => (forall f st, sig <> Yield f st) /\ remaining d' w' = []
  | f :: l' => (exists st, sig = Yield f st) /\ remaining d' w' = l'
  end.

(** The signals that end an enumeration. *)
Definition is_final (sig : signal) : Prop :=
  sig = StopIteration \/ exists e, sig = Raised e.

(** The requests that fetch the pages [pages] one after the other, for a
    handle on [path] whose saved cursor is [saved]: each request after
    the first carries the cursor of the page before it. *)
Fixpoint expected_requests (path : string) (saved : option string)
         (pages : list ListFolderResult) : list api_call :=
  match pages with
  | [] => []
  | res :: pages' =>
      request (mkDirectory path "" saved Finished)
      :: expected_requests path (Some (cursor res)) pages'
  end.

(** The cursor that the next request of handle [d] will carry. *)
Definition next_cursor (d : _Directory) : option string :=
  match _md d with
  | Created => None
  | AtFetch _ => _cursor d
  | AtYield _ _ res => Some (cursor res)
  | Finished => _cursor d
  end.

(** A step of the generator seen against the pages [pages] that the
    backend still holds: it consumes [k] of them with the expected
    requests. *)
Definition fetches (path : string) (saved : option string)
           (pages : list ListFolderResult) (w : World)
           (out : signal * _Directory * World) : Prop :=
  let '(_, d', w') := out in
  exists k,
    calls w' = calls w ++ firstn k (expected_requests path saved pages)
    /\ replies w' = map Ok (skipn k pages)
    /\ _path d' = path
    /\ (_md d' = Finished
        \/ expected_requests path (next_cursor d') (skipn k pages)
           = skipn k (expected_requests path saved pages)).

End Listing.

Module Polling.

Import Watch.

(** An observation that is not a callback invoked with an empty list. *)
Definition nonempty_changes (o : obs) : bool :=
  match o with
  | Invoked _ _ (CbChanges []) _ => false
  | _ => true
  end.

Definition is_latest_request (o : obs) : bool :=
  match o with
  | Called (files_list_folder_get_latest_cursor _ _) => true
  | _ => false
  end.

(** A watch whose callback returns when called with ['reset']. *)
Definition accepts_reset (t : tag) : Prop := cb_call (cb t) CbReset = None.

(** What the watch at [position] is called with first, in a trace. *)
Fixpoint first_for (position : nat) (tr : list obs) : option cb_arg :=
  match tr with
  | [] => None
  | Invoked i _ arg _ :: tr' =>
      if Nat.eqb i position then Some arg else first_for position tr'
  | _ :: tr' => first_for position tr'
  end.

Definition latest_requests (tr : list obs) : nat :=
  List.length (filter is_latest_request tr).

End Polling.

(** The per-thread client handles of [FileSystem]: the properties
    [_client] and [_clientv2] over [self._local = threading.local()]. *)
Module Clients.

(** [dropbox.client.DropboxClient] and [dropbox.Dropbox]. *)
Inductive api : Type := V1 | V2.

Definition api_eqb (a b : api) : bool :=
  match a, b with
  | V1, V1 | V2, V2 => true
  | _, _ => false
  end.

(** A client object: what it was built from, and its identity. *)
Record client : Type := mkClient {
  c_api : api;
  c_token : string;
  c_oid : nat
}.

(** An attribute of the thread-local object: the thread that looks, and
    [_client] or [_clientv2]. *)
Definition slot : Type := (nat * api)%type.

Definition slot_eqb (a b : slot) : bool :=
  Nat.eqb (fst a) (fst b) && api_eqb (snd a) (snd b).

(** The thread-local object, and the number of clients built so far
    (the next client's identity). *)
Record Local : Type := mkLocal {
  slots : list (slot * client);
  constructed : nat
}.

(** [getattr(self._local, name, None)] on thread [fst s]. *)
Fixpoint getattr (s : slot) (l : list (slot * client)) : option client :=
  match l with
  | [] => None
  | (k, c) :: l' => if slot_eqb k s then Some c else getattr s l'
  end.

(** The body shared by the two properties. *)
Definition cached (token : string) (a : api) (thread : nat) (l : Local)
  : client * Local :=
  match getattr (thread, a) (slots l) with
  | Some toret => (toret, l)
  | None =>
      let toret := mkClient a token (constructed l) in
      (toret, mkLocal (((thread, a), toret) :: slots l) (S (constructed l)))
  end.

Definition _client (token : string) := cached token V1.
Definition _clientv2 (token : string) := cached token V2.

(** [threading.local()] as [__init__] leaves it. *)
Definition fresh : Local := mkLocal [] 0.

(** The thread-local object after the accesses [hist], oldest first. *)
Fixpoint after (token : string) (hist : list slot) (l : Local) : Local :=
  match hist with
  | [] => l
  | (thread, a) :: hist' => after token hist' (snd (cached token a thread l))
  end.

(** What every reachable thread-local object satisfies. *)
Definition well_formed (token : string) (l : Local) : Prop :=
  forall s c,
    getattr s (slots l) = Some c ->
    c_token c = token /\ c_api c = snd s /\ (c_oid c < constructed l)%nat.

Definition distinct_clients (l : Local) : Prop :=
  forall s1 s2 c1 c2,
    getattr s1 (slots l) = Some c1 ->
    getattr s2 (slots l) = Some c2 ->
    c_oid c1 = c_oid c2 -> slot_eqb s1 s2 = true.

End Clients.

(** Further worlds for the statements below. *)
Module Cases.

(** A listing whose first page request fails; the backend would have
    answered a second request. *)
Definition failing_listing : Directory.World :=
  Directory.mkWorld (fun _ => 105) (fun _ => 106) 0
    [ Raise (OtherException "timeout");
      Ok (mkListFolderResult [Sample.a_md] "p1" false) ]
    [].

(** The pages of [Sample.listing]. *)
Definition listing_pages : list ListFolderResult :=
  [ mkListFolderResult
      [Sample.a_md; DeletedMetadata "old.txt" "/docs/old.txt"; Sample.sub_md]
      "p1" true;
    mkListFolderResult [Sample.b_md; Sample.c_md] "p2" false ].

(** A first pass over two watches whose callbacks accept ['reset']. *)
Definition first_cycle : Watch.cycle :=
  Watch.mkCycle (Ok "c0") (Ok Sample.batch)
                [Sample.watch_quiet; Sample.watch_grumpy].

End Cases.

(* ================================================================== *)
(** * Theorems: the metadata translator *)
(* ================================================================== *)

(** C9: [_md_to_stat] returns, for every folder descriptor, a record with
    the descriptor's name, type directory, size 0 and the current time as
    mtime; for every file descriptor, a record with the descriptor's
    name, type file, its size and its client-modified time.  It raises on
    neither kind of descriptor. *)
Theorem md_to_stat_translates :
  (forall now name path_lower id,
      _md_to_stat now (FolderMetadata name path_lower id)
      = Ok (mkStat name "directory" 0 now))
  /\ (forall now name path_lower id client_modified server_modified size,
      _md_to_stat now
        (FileMetadata name path_lower id client_modified server_modified size)
      = Ok (mkStat name "file" size client_modified)).
Proof.
  split; intros; reflexivity.
Qed.

(* ================================================================== *)
(** * Theorems: the facade at the root path *)
(* ================================================================== *)

(** C10: at the path ["/"], whatever the metadata backend would answer,
    [stat], [open] and [open_directory] succeed and make no backend
    request; [stat] reports a directory named ["/"] of size 0. *)
Theorem root_is_synthesized :
  forall (get_metadata : string -> result Metadata) (now : datetime) (oid : nat),
    FileSystem.stat get_metadata now "/" = (Ok (mkStat "/" "directory" 0 now), [])
    /\ FileSystem.open get_metadata oid "/" = (Ok (File.mkFile "/" "/" 0 oid), [])
    /\ FileSystem.open_directory get_metadata "/"
       = (Ok (Directory.mkDirectory "/" "/" None Directory.Created), []).
Proof.
  intros get_metadata now oid. repeat split.
Qed.

(* ================================================================== *)
(** * Theorems: the byte-range reader *)
(* ================================================================== *)

Section PreadErrors.

Variable get_file : string -> Z -> option Z -> result bytes.

(** The paths that name a directory in the remote store, and the
    backend's contract for them. *)
Variable names_directory : string -> bool.
Hypothesis directory_reply :
  forall p offset len,
    names_directory p = true ->
    get_file p offset len = Raise (ErrorResponse "Path is a directory").

Lemma pread_returns_backend_bytes (self : File._File) (offset size : Z) (b : bytes) :
  get_file (File._path_lower self) offset (File.length_arg size) = Ok b ->
  File.pread get_file self offset size = Ok b.
Proof.
  unfold File.pread. intros ->. reflexivity.
Qed.

(** C8: on a handle whose path names a directory, [pread] raises
    [OSError(EISDIR)] and returns no bytes; any other exception of the
    byte-range request leaves [pread] as the backend raised it. *)
Theorem pread_directory_fails :
  forall (self : File._File) (offset size : Z),
    (names_directory (File._path_lower self) = true ->
     File.pread get_file self offset size
     = Raise (OSError errno.EISDIR "Is a directory"))
    /\ (forall e,
           get_file (File._path_lower self) offset (File.length_arg size)
           = Raise e ->
           e <> ErrorResponse "Path is a directory" ->
           File.pread get_file self offset size = Raise e).
Proof.
  intros self offset size. unfold File.pread. split.
  - intros Hdir. rewrite (directory_reply _ _ _ Hdir). reflexivity.
  - intros e -> Hne. destruct e; try reflexivity.
    destruct (String.eqb_spec error_msg "Path is a directory") as [->|_].
    + contradiction.
    + reflexivity.
Qed.

End PreadErrors.

Lemma pread_directory_fails_witness :
  File.pread Sample.get_file (File.mkFile "/docs" "id:docs" 0 1) 0 (-1)
  = Raise (OSError errno.EISDIR "Is a directory")
  /\ File.pread Sample.get_file (File.mkFile "/else" "id:else" 0 2) 4 16
     = Raise (ErrorResponse "Network unreachable").
Proof.
  assert (Hc : forall p offset len,
             (p =? "/docs")%string = true ->
             Sample.get_file p offset len
             = Raise (ErrorResponse "Path is a directory")).
  { intros p offset len H. unfold Sample.get_file. rewrite H. reflexivity. }
  split.
  - exact (proj1 (pread_directory_fails Sample.get_file _ Hc
                    (File.mkFile "/docs" "id:docs" 0 1) 0 (-1)) eq_refl).
  - refine (proj2 (pread_directory_fails Sample.get_file _ Hc
                     (File.mkFile "/else" "id:else" 0 2) 4 16) _ eq_refl _).
    discriminate.
Defined.

(** C6: on every handle, with every backend and every size, [read] raises
    [NameError] for the unbound name [offset]: it returns no bytes and
    leaves the handle, its offset included, as it was; [readall] does the
    same.  On the handle for [/docs/a.txt] at offset 0, [pread(0, 2)]
    would have returned two bytes. *)
Theorem read_raises_name_error :
  (forall get_file (self : File._File) (size : Z),
      File.read get_file self size = (Raise (NameError "offset"), self)
      /\ File.readall get_file self = (Raise (NameError "offset"), self))
  /\ File.pread Sample.get_file (File.mkFile "/docs/a.txt" "id:a" 0 3) 0 2
     = Ok [Byte.x68; Byte.x69].
Proof.
  split.
  - intros get_file self size. split; reflexivity.
  - reflexivity.
Qed.

(* ================================================================== *)
(** * Theorems: watch registration *)
(* ================================================================== *)

(** C5, as the code has it: [create_watch] accepts exactly the handles
    made by [open] ([_File] objects).  For such a handle it appends the
    registration tuple to the registry and returns the stop capability
    that holds it; for any other object, a handle made by
    [open_directory] included, it raises [OSError(EINVAL)] and leaves the
    registry untouched. *)
Theorem create_watch_takes_file_handles :
  forall (self : FileSystem.FileSystem) (cb : Watch.callback)
         (h : FileSystem.handle) (completion_filter : Z) (watch_tree : bool),
    match h with
    | FileSystem.HFile f =>
        let t := Watch.mkTag cb f completion_filter watch_tree in
        FileSystem.create_watch self cb h completion_filter watch_tree
        = (Ok (FileSystem.mkStop t),
           FileSystem.mkFileSystem (FileSystem._access_token self)
                                   (FileSystem._watches self ++ [t]))
    | _ =>
        FileSystem.create_watch self cb h completion_filter watch_tree
        = (Raise (OSError errno.EINVAL "Invalid argument"), self)
    end.
Proof.
  intros self cb h completion_filter watch_tree.
  destruct h; reflexivity.
Qed.

(** C5 as stated does not hold: the handle that [open_directory]
    makes for the root is refused with [OSError(EINVAL)], and the handle
    that [open] makes for a file is accepted and registered. *)
Lemma create_watch_refuses_directory_handle :
  (exists d,
      FileSystem.open_directory Sample.get_metadata "/" = (Ok d, [])
      /\ FileSystem.create_watch (FileSystem.__init__ "token") Sample.quiet
           (FileSystem.HDirectory d) 0 false
         = (Raise (OSError errno.EINVAL "Invalid argument"),
            FileSystem.__init__ "token"))
  /\ (exists f s fs',
         FileSystem.open Sample.get_metadata 7 "/docs/a.txt"
         = (Ok f, [FileSystem.files_get_metadata "/docs/a.txt"])
         /\ FileSystem.create_watch (FileSystem.__init__ "token") Sample.quiet
              (FileSystem.HFile f) 0 false
            = (Ok s, fs')
         /\ List.length (FileSystem._watches fs') = 1%nat).
Proof.
  split.
  - eexists. split; reflexivity.
  - do 3 eexists. repeat split; reflexivity.
Qed.

(* ================================================================== *)
(** * Theorems: routing of changes to watches *)
(* ================================================================== *)

Section Strings.

Lemma prefix_iff_app (p s : string) :
  String.prefix p s = true <-> exists rest, s = (p ++ rest)%string.
Proof.
  revert s. induction p as [|a p IH]; intros s.
  - split; [intros _; exists s; reflexivity | intros _; now destruct s].
  - destruct s as [|b s]; simpl.
    + split; [discriminate | intros [rest H]; discriminate].
    + destruct (Ascii.ascii_dec a b) as [->|Hab].
      * rewrite IH. split; intros [rest H]; exists rest.
        -- now subst.
        -- now inversion H.
      * split; [discriminate | intros [rest H]; inversion H; congruence].
Qed.

Lemma slice_from_app (p rest : string) :
  slice_from (String.length p) (p ++ rest) = rest.
Proof.
  induction p as [|a p IH]; simpl.
  - destruct rest; reflexivity.
  - exact IH.
Qed.

Lemma string_length_app (a b : string) :
  String.length (a ++ b) = (String.length a + String.length b)%nat.
Proof.
  induction a as [|c a IH]; simpl; [reflexivity | now rewrite IH].
Qed.

Lemma index_slash_cons (b : ascii) (s : string) :
  String.index 0 "/" (String b s)
  = if Ascii.ascii_dec "/"%char b then Some 0%nat
    else option_map S (String.index 0 "/" s).
Proof.
  cbn [String.index String.prefix].
  destruct (Ascii.ascii_dec "/"%char b).
  - now destruct s.
  - now destruct (String.index 0 "/" s).
Qed.

(** [s.find("/") == -1] says that no character of [s] is a slash. *)
Lemma find_slash_none (s : string) :
  find s "/" = -1 <-> ~ In "/"%char (list_ascii_of_string s).
Proof.
  unfold find. induction s as [|b s IH].
  - simpl. split; [intros _ [] | reflexivity].
  - rewrite index_slash_cons. simpl list_ascii_of_string.
    destruct (Ascii.ascii_dec "/"%char b) as [<-|Hne].
    + split; [discriminate | intros H; exfalso; apply H; now left].
    + destruct (String.index 0 "/" s) as [i|]; simpl.
      * split; [lia |].
        intros H. exfalso.
        assert (Hs : ~ In "/"%char (list_ascii_of_string s))
          by (intros Hin; apply H; now right).
        apply IH in Hs. lia.
      * split; [| reflexivity].
        intros _ [Hb | Hin]; [congruence | ].
        now apply (proj1 IH).
Qed.

Lemma app_not_prefix_of_self (s : string) (c : ascii) :
  String.prefix (s ++ String c EmptyString) s = false.
Proof.
  destruct (String.prefix (s ++ String c EmptyString) s) eqn:E;
    [| reflexivity].
  apply prefix_iff_app in E. destruct E as [rest E].
  apply (f_equal String.length) in E.
  rewrite !string_length_app in E. simpl in E. lia.
Qed.

End Strings.

Section Routing.

Import Watch.

Lemma routed_as_bool (wt : bool) (scope path : string) :
  routed wt scope path
  = startswith path (prefix_ndirpath scope)
    && (wt || (find (slice_from (String.length (prefix_ndirpath scope)) path)
                    "/" =? -1)).
Proof.
  unfold routed.
  destruct (startswith path (prefix_ndirpath scope)); simpl;
    [| reflexivity].
  destruct wt; simpl; [reflexivity |].
  now destruct (find _ "/" =? -1).
Qed.

Lemma routed_iff (wt : bool) (scope path : string) :
  routed wt scope path = true <->
  exists rest,
    path = (prefix_ndirpath scope ++ rest)%string
    /\ (wt = false -> ~ In "/"%char (list_ascii_of_string rest)).
Proof.
  rewrite routed_as_bool, andb_true_iff. unfold startswith.
  rewrite prefix_iff_app. split.
  - intros [[rest ->] H]. exists rest. split; [reflexivity |].
    intros ->. rewrite slice_from_app in H. simpl in H.
    apply find_slash_none. lia.
  - intros [rest [-> H]]. split; [now exists rest |].
    rewrite slice_from_app. destruct wt; [reflexivity |]. simpl.
    apply Z.eqb_eq, find_slash_none, H. reflexivity.
Qed.

Lemma scope_itself_not_routed (wt : bool) (scope : string) :
  scope <> "/"%string -> routed wt scope scope = false.
Proof.
  intros Hne. rewrite routed_as_bool. unfold startswith, prefix_ndirpath.
  destruct (String.eqb_spec scope "/") as [->|_]; [congruence |].
  now rewrite app_not_prefix_of_self.
Qed.

Lemma collect_acc (wt : bool) (scope : string) (es : list Metadata)
      (acc : list Change) :
  collect wt scope es acc
  = acc ++ map change_of
               (filter (fun e => routed wt scope (md_path_lower e)) es).
Proof.
  revert acc. induction es as [|e es IH]; intros acc; simpl.
  - now rewrite app_nil_r.
  - destruct (routed wt scope (md_path_lower e)); rewrite IH.
    + now rewrite <- app_assoc.
    + reflexivity.
Qed.

End Routing.

(** C2, as the code has it: a change is put on a watch's list exactly
    when its path extends the scope path followed by a separator (the
    scope path alone when the scope is ["/"]), by any remainder if the
    watch is recursive and by a remainder without a separator if it is
    not.  A change at the scope directory itself is not routed unless the
    scope is ["/"]; off the scope directory the routing agrees with the
    scope as the specification words it.  The list handed to the callback
    is the routed entries of the batch, in feed order.  For the scope
    [/a/b]: not recursive, [/a/b/c/d] is left out and [/a/b/c] is routed;
    recursive, both are routed. *)
Theorem routing_by_scope_prefix :
  (forall wt scope path,
      Watch.routed wt scope path = true <->
      exists rest,
        path = (Watch.prefix_ndirpath scope ++ rest)%string
        /\ (wt = false -> ~ In "/"%char (list_ascii_of_string rest)))
  /\ (forall wt scope,
         scope <> "/"%string -> Watch.routed wt scope scope = false)
  /\ (forall wt scope path,
         path <> scope ->
         Watch.routed wt scope path = Watch.spec_in_scope wt scope path)
  /\ (forall wt scope es,
         Watch.collect wt scope es []
         = map Watch.change_of
               (filter (fun e => Watch.routed wt scope (md_path_lower e)) es))
  /\ Watch.routed false "/a/b" "/a/b/c/d" = false
  /\ Watch.routed false "/a/b" "/a/b/c" = true
  /\ Watch.routed true "/a/b" "/a/b/c" = true
  /\ Watch.routed true "/a/b" "/a/b/c/d" = true.
Proof.
  split; [exact routed_iff |].
  split; [exact scope_itself_not_routed |].
  split.
  - intros wt scope path Hne. rewrite routed_as_bool.
    unfold Watch.spec_in_scope.
    destruct (String.eqb_spec path scope); [contradiction | reflexivity].
  - split; [intros; apply collect_acc |].
    repeat split.
Qed.

Lemma routing_by_scope_prefix_witness :
  Watch.routed false "/a/b" "/a/b" = false
  /\ Watch.routed false "/a/b" "/a/b/c"
     = Watch.spec_in_scope false "/a/b" "/a/b/c".
Proof.
  split.
  - apply (proj1 (proj2 routing_by_scope_prefix) false "/a/b"). discriminate.
  - apply (proj1 (proj2 (proj2 routing_by_scope_prefix)) false "/a/b" "/a/b/c").
    discriminate.
Defined.

(** C2 as stated does not hold: a change at the scope directory
    [/a/b] lies within the scope as the specification words it, and is
    not routed; a batch holding only that change yields an empty list. *)
Lemma scope_directory_itself_is_dropped :
  Watch.spec_in_scope false "/a/b" "/a/b" = true
  /\ Watch.spec_in_scope true "/a/b" "/a/b" = true
  /\ Watch.routed false "/a/b" "/a/b" = false
  /\ Watch.routed true "/a/b" "/a/b" = false
  /\ Watch.collect true "/a/b" [FolderMetadata "b" "/a/b" (Some "id:b")] [] = [].
Proof.
  repeat split.
Qed.

(* ================================================================== *)
(** * Theorems: the poller *)
(* ================================================================== *)

Section Poller.

Import Watch.

Lemma sleep_raises (secs : Z) :
  time_sleep delta_thread_locals secs = Raise (NameError "time").
Proof. reflexivity. Qed.

(** A pass whose fetch raises ends the thread in the handler. *)
Lemma pass_on_fetch_error (p : poller) (c : cycle) tr cur e :
  fetch p c = (tr, cur, Raise e) ->
  pass p c = (tr ++ [Logged "failure while doing list folder"],
              Died (NameError "time")).
Proof.
  intros H. unfold pass. rewrite H, sleep_raises. reflexivity.
Qed.

(** Without a pending reset no exception leaves the loop over the
    watches, whatever the callbacks do. *)
Lemma serve_all_guarded (res : ListFolderResult) (ws : list tag) (i : nat) :
  snd (serve_all false res i ws) = None.
Proof.
  revert i. induction ws as [|t ws IH]; intros i; simpl; [reflexivity |].
  specialize (IH (S i)).
  destruct (serve_all false res (S i) ws) as [tr' r]. exact IH.
Qed.

Lemma resets_for_app (j : nat) (a b : list obs) :
  resets_for j (a ++ b) = (resets_for j a + resets_for j b)%nat.
Proof.
  unfold resets_for. now rewrite filter_app, List.length_app.
Qed.

Lemma resets_for_cons (j : nat) (o : obs) (l : list obs) :
  resets_for j (o :: l)
  = ((if is_reset_for j o then 1 else 0) + resets_for j l)%nat.
Proof.
  unfold resets_for. simpl. now destruct (is_reset_for j o).
Qed.

(** The body for one watch whose callback accepts ['reset']: one reset,
    first in its trace, and none for any other position. *)
Lemma serve_resets (res : ListFolderResult) (i : nat) (t : tag) :
  cb_call (cb t) CbReset = None ->
  exists tr,
    serve true res i t = (Invoked i (cb_id (cb t)) CbReset None :: tr, None)
    /\ (forall j, resets_for j tr = 0%nat)
    /\ serve false res i t = (tr, None).
Proof.
  intros Hq. unfold serve. rewrite Hq.
  eexists. split; [reflexivity |]. split; [| reflexivity].
  intros j.
  destruct (collect (watch_tree t) (File._path_lower (dir_handle t))
                    (entries res) []) as [|c l]; [reflexivity |].
  now destruct (cb_call (cb t) (CbChanges (c :: l))).
Qed.

(** A delivery cycle with the reset flag set, over callbacks that
    accept ['reset']: no exception leaves the loop, and every position
    of the snapshot receives exactly one reset. *)
Lemma serve_all_resets_once (res : ListFolderResult) (ws : list tag) :
  Forall (fun t => cb_call (cb t) CbReset = None) ws ->
  forall i,
    snd (serve_all true res i ws) = None
    /\ (forall k, (k < List.length ws)%nat ->
                  resets_for (i + k) (fst (serve_all true res i ws)) = 1%nat)
    /\ (forall j, (j < i)%nat ->
                  resets_for j (fst (serve_all true res i ws)) = 0%nat).
Proof.
  induction 1 as [|t ws Ht Hws IH]; intros i.
  - repeat split; intros; simpl in *; solve [lia | reflexivity].
  - cbn [serve_all List.length].
    destruct (serve_resets res i t Ht) as [tr [-> [Htr _]]].
    destruct (IH (S i)) as [Hn [Hk Hj]].
    destruct (serve_all true res (S i) ws) as [tr' r]. cbn [fst snd] in *.
    split; [exact Hn |]. split.
    + intros k Hlt.
      rewrite resets_for_app, resets_for_cons, Htr. cbn [is_reset_for].
      destruct k as [|k].
      * rewrite !Nat.add_0_r, (Hj i), Nat.eqb_refl by lia. reflexivity.
      * replace (i + S k)%nat with (S i + k)%nat by lia.
        rewrite Hk by lia.
        destruct (Nat.eqb_spec i (S i + k)); [lia | reflexivity].
    + intros j Hlt.
      rewrite resets_for_app, resets_for_cons, Htr, Hj by lia.
      cbn [is_reset_for].
      destruct (Nat.eqb_spec i j); [lia | reflexivity].
Qed.

(** A pass that serves its watches clears the reset flag. *)
Lemma pass_clears_flag (p : poller) (c : cycle) tr p' :
  pass p c = (tr, Alive p') ->
  (exists res, snd (fetch p c) = Ok res) ->
  needs_reset p' = false.
Proof.
  unfold pass. intros H [res Hres].
  destruct (fetch p c) as [[tr0 cur] r]. simpl in Hres. subst r.
  destruct (serve_all (needs_reset p) res 0 (registered c)) as [tr1 [e|]];
    [discriminate |].
  destruct (negb (has_more res)).
  - rewrite sleep_raises in H. discriminate.
  - now inversion H.
Qed.

End Poller.

(** C7: when the fetch of changes raises, for every error, every cursor
    and every reset flag, the pass logs the failure and then dies with
    [NameError] at [time.sleep(60)], the name [time] being unbound: the
    thread ends, nothing is retried and no later pass runs, whether the
    error came from the change fetch with a held cursor, from the change
    fetch with a fresh cursor, or from the request for the latest
    cursor. *)
Theorem fetch_error_ends_thread :
  forall (e : exn) (cur : string) (flag : bool) (latest : result string)
         (ws : list Watch.tag) (later : list Watch.cycle),
    Watch.loop (Watch.mkPoller (Some cur) flag)
               (Watch.mkCycle latest (Raise e) ws :: later)
    = ([Watch.Called (Watch.files_list_folder_continue cur);
        Watch.Logged "failure while doing list folder"],
       Watch.Died (NameError "time"))
    /\ Watch.loop (Watch.mkPoller None flag)
                  (Watch.mkCycle (Ok cur) (Raise e) ws :: later)
       = ([Watch.Called (Watch.files_list_folder_get_latest_cursor "" true);
           Watch.Called (Watch.files_list_folder_continue cur);
           Watch.Logged "failure while doing list folder"],
          Watch.Died (NameError "time"))
    /\ Watch.loop (Watch.mkPoller None flag)
                  (Watch.mkCycle (Raise e) (Ok Sample.batch) ws :: later)
       = ([Watch.Called (Watch.files_list_folder_get_latest_cursor "" true);
           Watch.Logged "failure while doing list folder"],
          Watch.Died (NameError "time")).
Proof.
  intros e cur flag latest ws later. repeat split.
Qed.

(** C3: with two watches registered and a held cursor, a fetch that fails
    with the feed-invalidation error ends the thread at [time.sleep(60)]:
    no callback is invoked, so neither watch receives a reset, although
    the backend would have answered the following pass. *)
Theorem invalidation_delivers_no_reset :
  forall (flag : bool),
    let run :=
      Watch.loop (Watch.mkPoller (Some "c0") flag)
        [ Watch.mkCycle (Ok "c1") (Raise ListFolderContinueError)
                        [Sample.watch_quiet; Sample.watch_grumpy];
          Watch.mkCycle (Ok "c1") (Ok Sample.batch)
                        [Sample.watch_quiet; Sample.watch_grumpy] ] in
    snd run = Watch.Died (NameError "time")
    /\ filter Watch.is_invocation (fst run) = []
    /\ Watch.resets_for 0 (fst run) = 0%nat
    /\ Watch.resets_for 1 (fst run) = 0%nat.
Proof.
  intros flag. repeat split.
Qed.

(** C4: in the first delivery cycle, with the watches of a callback that
    raises on ['reset'] and of one that never raises, the exception of
    the first leaves [delta_thread]: the thread dies and the second watch
    is not served.  A callback that raises on its change list is logged
    and the next watch is served. *)
Theorem reset_failure_ends_thread :
  Watch.delta_thread
    [ Watch.mkCycle (Ok "c0") (Ok Sample.batch)
                    [Sample.watch_touchy; Sample.watch_quiet];
      Watch.mkCycle (Ok "c0") (Ok Sample.batch)
                    [Sample.watch_touchy; Sample.watch_quiet] ]
  = ([ Watch.Called (Watch.files_list_folder_get_latest_cursor "" true);
       Watch.Called (Watch.files_list_folder_continue "c0");
       Watch.Invoked 0 2 Watch.CbReset (Some (OtherException "watcher failed")) ],
     Watch.Died (OtherException "watcher failed"))
  /\ Watch.pass (Watch.mkPoller (Some "c0") false)
       (Watch.mkCycle (Ok "c0") (Ok Sample.batch)
                      [Sample.watch_grumpy; Sample.watch_quiet])
     = ([ Watch.Called (Watch.files_list_folder_continue "c0");
          Watch.Invoked 0 3 (Watch.CbChanges [Watch.mkChange "removed" "a.txt"])
                        (Some (OtherException "watcher failed"));
          Watch.Logged "failure during watch callback";
          Watch.Invoked 1 1 (Watch.CbChanges [Watch.mkChange "removed" "a.txt"])
                        None ],
        Watch.Alive (Watch.mkPoller (Some "c1") false)).
Proof.
  split; reflexivity.
Qed.

(* ================================================================== *)
(** * Theorems: the snapshot directory lister *)
(* ================================================================== *)

Section Snapshot.

Import Directory.

(** What the for loop lets through. *)
Lemma scan_yield_within (start : datetime) (es : list Metadata) f rest :
  scan start es = ScanYield f rest -> within_snapshot start f.
Proof.
  induction es as [|e es IH]; simpl; [discriminate |].
  destruct (is_DeletedMetadata e) eqn:Hdel; [exact IH |].
  destruct (newer_than start e) eqn:Hnew; [discriminate |].
  intros H. inversion H; subst. split; [exact Hdel |].
  intros name path_lower id cm sm size ->. simpl in Hnew.
  rewrite Z.gtb_ltb in Hnew. apply Z.ltb_ge in Hnew. exact Hnew.
Qed.

(** The entries handed out come from the page, in page order. *)
Lemma scan_yield_in (start : datetime) (es : list Metadata) f rest :
  scan start es = ScanYield f rest ->
  exists skipped, es = skipped ++ f :: rest.
Proof.
  induction es as [|e es IH]; simpl; [discriminate |].
  destruct (is_DeletedMetadata e).
  - intros H. destruct (IH H) as [sk ->]. now exists (e :: sk).
  - destruct (newer_than start e); [discriminate |].
    intros H. inversion H; subst. now exists [].
Qed.

Lemma for_loop_ok start es res d w again :
  (forall d0 w0, step_ok start (again d0 w0)) ->
  step_ok start (for_loop start es res d w again).
Proof.
  intros Hagain. unfold for_loop.
  destruct (scan start es) as [f rest| |] eqn:Hscan.
  - pose proof (scan_yield_within _ _ _ _ Hscan) as Hin.
    destruct (_md_to_stat (now w (ticks w)) f) as [st|e] eqn:Hst; simpl.
    + split.
      * intros f0 st0 H. inversion H; subst. split; [exact Hin |].
        now exists (now w (ticks w)).
      * right; right. now exists rest, res.
    + split; [discriminate | now left].
  - simpl. split; [discriminate | now left].
  - destruct (negb (has_more res)).
    + simpl. split; [discriminate | now left].
    + apply Hagain.
Qed.

Lemma while_loop_ok start rs :
  forall d w, step_ok start (while_loop start rs d w).
Proof.
  induction rs as [|r rs IH]; intros d w; simpl.
  - split; [discriminate | right; now left].
  - destruct r as [res|e].
    + apply for_loop_ok. exact IH.
    + simpl. split; [discriminate | now left].
Qed.

Lemma next_ok (d : _Directory) (w : World) (T : datetime) :
  boundary d w = Some T -> step_ok T (__next__ d w).
Proof.
  unfold boundary, __next__.
  destruct (_md d) as [|start|start rest res|]; intros H; inversion H; subst.
  - apply while_loop_ok.
  - apply while_loop_ok.
  - apply for_loop_ok. intros d0 w0. apply while_loop_ok.
Qed.

Lemma read_many_ok (T : datetime) (n : nat) :
  forall d w,
    boundary d w = Some T \/ same_enumeration T d ->
    Forall (fun e => within_snapshot T (fst e)
                     /\ exists now, _md_to_stat now (fst e) = Ok (snd e))
           (fst (fst (read_many n d w))).
Proof.
  induction n as [|n IH]; intros d w Hd; simpl; [constructor |].
  assert (Hstep : step_ok T (__next__ d w)).
  { destruct Hd as [Hb | [Hf | [Hf | [rest [res Hf]]]]].
    - now apply next_ok.
    - unfold __next__. rewrite Hf. simpl. split; [discriminate | now left].
    - apply next_ok. unfold boundary. now rewrite Hf.
    - apply next_ok. unfold boundary. now rewrite Hf. }
  unfold read. destruct (__next__ d w) as [[sig d'] w'].
  destruct Hstep as [Hy Hfr].
  assert (Hnext : boundary d' w' = Some T \/ same_enumeration T d')
    by (right; exact Hfr).
  specialize (IH d' w' Hnext).
  destruct sig as [f st| | e |]; try exact IH.
  destruct (read_many n d' w') as [[l d''] w''] eqn:Hrm. simpl in *.
  constructor; [| exact IH].
  simpl. now apply Hy.
Qed.

(** The listing of [/docs] hands out [a.txt] and [sub] and ends at
    [b.txt]; [c.txt], behind it on the same page, is not handed out. *)
Example docs_listing :
  let '(l, d, w) := read_many 5 (__init__ "/docs" "id:docs") Sample.listing in
  l = [ (Sample.a_md, mkStat "a.txt" "file" 3 100);
        (Sample.sub_md, mkStat "sub" "directory" 0 106) ]
  /\ _md d = Finished
  /\ calls w = [ files_list_folder "/docs"; files_list_folder_continue "p1" ].
Proof. repeat split. Qed.

(** The boundary is drawn on the server's modification time; the
    record carries the client's. *)
Example late_listing :
  fst (fst (read_many 2 (__init__ "/docs" "id:docs") Sample.late_listing))
  = [ (Sample.late_md, mkStat "late.txt" "file" 1 200) ].
Proof. reflexivity. Qed.

End Snapshot.

(** C1: on a handle that has just been made or reset, in every world
    (every clock and every sequence of pages or errors from the backend),
    let [T] be the time the enumeration records as it begins.  Every
    record that any number of [read()] calls hands out is the translation
    of an entry that is no tombstone and, if a file, has a modification
    time of at most [T]. *)
Theorem listing_stays_within_snapshot :
  forall (d : Directory._Directory) (w : Directory.World) (n : nat),
    Forall (fun e =>
              Directory.within_snapshot
                (Directory.utcnow w (Directory.ticks w)) (fst e)
              /\ exists now, _md_to_stat now (fst e) = Ok (snd e))
           (fst (fst (Directory.read_many n (Directory.reset d) w))).
Proof.
  intros d w n. apply read_many_ok. left. reflexivity.
Qed.

(* ================================================================== *)
(** * Further theorems: the snapshot directory lister *)
(* ================================================================== *)

Section ListingContents.

Import Directory Listing.

Lemma deleted_not_newer (start : datetime) (f : Metadata) :
  is_DeletedMetadata f = true -> newer_than start f = false.
Proof. now destruct f. Qed.

Lemma live_translates (now : datetime) (f : Metadata) :
  is_DeletedMetadata f = false -> exists st, _md_to_stat now f = Ok st.
Proof. destruct f; intros H; try discriminate; eexists; reflexivity. Qed.

(** The for loop against [kept] and [hit]. *)
Lemma scan_kept (start : datetime) (es : list Metadata) :
  match scan start es with
  | ScanYield f rest =>
      kept start es = f :: kept start rest
      /\ hit start es = hit start rest
      /\ is_DeletedMetadata f = false
  | ScanBreak => kept start es = [] /\ hit start es = true
  | ScanDone => kept start es = [] /\ hit start es = false
  end.
Proof.
  induction es as [|e es IH]; [now split |].
  unfold kept, hit in *. cbn [scan until_newer existsb].
  destruct (is_DeletedMetadata e) eqn:Hdel.
  - rewrite (deleted_not_newer start e Hdel). cbn [filter orb].
    unfold live. rewrite Hdel. exact IH.
  - destruct (newer_than start e) eqn:Hnew; [now split |].
    cbn [filter orb]. unfold live. rewrite Hdel. now repeat split.
Qed.

Lemma for_loop_hands_out start es res d w again :
  hands_out (visible start (replies w))
            (again (set_cursor (Some (cursor res)) d) w) ->
  hands_out
    (kept start es
     ++ (if hit start es || negb (has_more res) then []
         else visible start (replies w)))
    (for_loop start es res d w again).
Proof.
  intros Hagain. unfold for_loop.
  pose proof (scan_kept start es) as Hs.
  destruct (scan start es) as [f rest| |].
  - destruct Hs as [-> [-> Hlive]].
    destruct (live_translates (now w (ticks w)) f Hlive) as [st ->].
    cbn [app hands_out]. split; [now exists st |].
    unfold remaining. cbn [_md set_md].
    now destruct (is_FolderMetadata f).
  - destruct Hs as [-> ->]. cbn. split; [discriminate | reflexivity].
  - destruct Hs as [-> ->]. cbn [app orb].
    destruct (negb (has_more res)); [| exact Hagain].
    cbn. split; [discriminate | reflexivity].
Qed.

Lemma while_loop_hands_out start rs :
  forall d w,
    replies w = rs ->
    hands_out (visible start rs) (while_loop start rs d w).
Proof.
  induction rs as [|r rs IH]; intros d w Hw.
  - cbn. split; [discriminate |]. unfold remaining. cbn. now rewrite Hw.
  - cbn [while_loop visible]. destruct r as [res|e].
    + pose proof (for_loop_hands_out start (entries res) res d
                    (answer (request d) rs w) (while_loop start rs)) as H.
      cbn [replies answer] in H. apply H. now apply IH.
    + cbn. split; [discriminate | reflexivity].
Qed.

Lemma next_hands_out (d : _Directory) (w : World) :
  hands_out (remaining d w) (__next__ d w).
Proof.
  unfold remaining, __next__. destruct (_md d) as [|start|start rest res|] eqn:E.
  - now apply while_loop_hands_out.
  - now apply while_loop_hands_out.
  - apply for_loop_hands_out. now apply while_loop_hands_out.
  - cbn. split; [discriminate |]. unfold remaining. now rewrite E.
Qed.

Lemma read_many_hands_out (n : nat) :
  forall d w,
    map fst (fst (fst (read_many n d w))) = firstn n (remaining d w).
Proof.
  induction n as [|n IH]; intros d w; [reflexivity |].
  cbn [read_many]. unfold read.
  pose proof (next_hands_out d w) as H.
  destruct (__next__ d w) as [[sig d'] w']. cbn [hands_out] in H.
  destruct (remaining d w) as [|f l].
  - destruct H as [Hno Hrem]. specialize (IH d' w'). rewrite Hrem in IH.
    destruct sig as [f st| | e |].
    + now destruct (Hno f st).
    + rewrite IH. now destruct n.
    + rewrite IH. now destruct n.
    + rewrite IH. now destruct n.
  - destruct H as [[st ->] Hrem]. specialize (IH d' w'). rewrite Hrem in IH.
    destruct (read_many n d' w') as [[l0 d''] w'']. cbn in *. now rewrite IH.
Qed.

End ListingContents.

(** X1: on a handle that has just been made or reset, [n] calls of
    [read()] hand out the first [n] entries of the listing: the entries
    of the pages in feed order, tombstones left out, up to the first file
    modified after the start time, the first backend error or the last
    page.  Nothing else is handed out and nothing is handed out twice. *)
Theorem listing_hands_out_visible_prefix :
  forall (d : Directory._Directory) (w : Directory.World) (n : nat),
    map fst (fst (fst (Directory.read_many n (Directory.reset d) w)))
    = firstn n (Listing.visible (Directory.utcnow w (Directory.ticks w))
                                (Directory.replies w)).
Proof.
  intros d w n. apply read_many_hands_out.
Qed.

Section ListingEnd.

Import Directory Listing.

Lemma for_loop_final start es res d w again sig d' w' :
  (forall d0 w0 sig0 d1 w1,
      again d0 w0 = (sig0, d1, w1) -> is_final sig0 -> _md d1 = Finished) ->
  for_loop start es res d w again = (sig, d', w') ->
  is_final sig -> _md d' = Finished.
Proof.
  intros Hagain. unfold for_loop.
  destruct (scan start es) as [f rest| |].
  - destruct (_md_to_stat (now w (ticks w)) f); intros H Hf;
      inversion H; subst; [| reflexivity].
    destruct Hf as [Hf | [e Hf]]; discriminate.
  - intros H _. now inversion H.
  - destruct (negb (has_more res)).
    + intros H _. now inversion H.
    + apply Hagain.
Qed.

Lemma while_loop_final start rs :
  forall d w sig d' w',
    while_loop start rs d w = (sig, d', w') ->
    is_final sig -> _md d' = Finished.
Proof.
  induction rs as [|r rs IH]; intros d w sig d' w'; cbn [while_loop].
  - intros H Hf. inversion H; subst.
    destruct Hf as [Hf | [e Hf]]; discriminate.
  - destruct r as [res|e].
    + apply for_loop_final. exact IH.
    + intros H _. now inversion H.
Qed.

Lemma next_final (d : _Directory) (w : World) sig d' w' :
  __next__ d w = (sig, d', w') -> is_final sig -> _md d' = Finished.
Proof.
  unfold __next__. destruct (_md d) as [|start|start rest res|] eqn:E.
  - apply while_loop_final.
  - apply while_loop_final.
  - apply for_loop_final. intros d0 w0 sig0 d1 w1. apply while_loop_final.
  - intros H _. now inversion H; subst.
Qed.

Lemma finished_reads (d : _Directory) (w : World) :
  _md d = Finished ->
  read d w = (EndOfSequence, d, w)
  /\ forall n, read_many n d w = ([], d, w).
Proof.
  intros Hd.
  assert (Hr : read d w = (EndOfSequence, d, w))
    by (unfold read, __next__; now rewrite Hd).
  split; [exact Hr |].
  induction n as [|n IH]; [reflexivity |].
  cbn [read_many]. now rewrite Hr.
Qed.

(** The exceptions of a listing are the backend's. *)
Lemma for_loop_raises start es res d w again
      (rs : list (result ListFolderResult)) e :
  (fst (fst (again (set_cursor (Some (cursor res)) d) w)) = Raised e ->
   In (Raise e) rs) ->
  fst (fst (for_loop start es res d w again)) = Raised e ->
  In (Raise e) rs.
Proof.
  intros Hagain. unfold for_loop.
  pose proof (scan_kept start es) as Hs.
  destruct (scan start es) as [f rest| |].
  - destruct Hs as [_ [_ Hlive]].
    destruct (live_translates (now w (ticks w)) f Hlive) as [st ->].
    discriminate.
  - discriminate.
  - destruct (negb (has_more res)); [discriminate | apply Hagain].
Qed.

Lemma while_loop_raises start rs e :
  forall d w,
    fst (fst (while_loop start rs d w)) = Raised e -> In (Raise e) rs.
Proof.
  induction rs as [|r rs IH]; intros d w; cbn [while_loop].
  - discriminate.
  - destruct r as [res|e0].
    + intros H. right. revert H. apply for_loop_raises. apply IH.
    + cbn. intros H. inversion H. now left.
Qed.

End ListingEnd.

(** X2: once [read()] has returned [None] or has raised, the generator
    is finished: every later [read()] returns [None], hands out nothing
    and sends no request to the backend, also after an error. *)
Theorem listing_end_is_final :
  forall (d : Directory._Directory) (w : Directory.World) r d' w',
    Directory.read d w = (r, d', w') ->
    r = Directory.EndOfSequence \/ (exists e, r = Directory.ReadRaised e) ->
    Directory.read d' w' = (Directory.EndOfSequence, d', w')
    /\ forall n, Directory.read_many n d' w' = ([], d', w').
Proof.
  intros d w r d' w' Hread Hr. apply finished_reads.
  unfold Directory.read in Hread.
  destruct (Directory.__next__ d w) as [[sig d0] w0] eqn:Hnext.
  assert (Hd : d' = d0) by (destruct sig; now inversion Hread).
  subst d'. apply (next_final d w sig d0 w0 Hnext).
  destruct sig; inversion Hread; subst.
  - destruct Hr as [Hr | [e Hr]]; discriminate.
  - now left.
  - right. now eexists.
  - destruct Hr as [Hr | [e Hr]]; discriminate.
Qed.

Lemma listing_end_is_final_witness :
  exists d' w',
    Directory.read (Directory.__init__ "/docs" "id:docs") Cases.failing_listing
    = (Directory.ReadRaised (OtherException "timeout"), d', w')
    /\ Directory.read d' w' = (Directory.EndOfSequence, d', w')
    /\ Directory.read_many 3 d' w' = ([], d', w').
Proof.
  destruct (Directory.read (Directory.__init__ "/docs" "id:docs")
                           Cases.failing_listing) as [[r d'] w'] eqn:E.
  exists d', w'.
  assert (Hr : r = Directory.ReadRaised (OtherException "timeout"))
    by (vm_compute in E; now inversion E).
  subst r. split; [reflexivity |].
  destruct (listing_end_is_final _ _ _ d' w' E
              (or_intror (ex_intro _ (OtherException "timeout") eq_refl)))
    as [H1 H2].
  split; [exact H1 | exact (H2 3%nat)].
Defined.

(** X3: every exception that [read()] raises is one that the backend
    raised in answer to a page request: the listing adds no failure of
    its own, because tombstones never reach the translator. *)
Theorem listing_raises_backend_errors_only :
  forall (d : Directory._Directory) (w : Directory.World) e d' w',
    Directory.read d w = (Directory.ReadRaised e, d', w') ->
    In (Raise e) (Directory.replies w).
Proof.
  intros d w e d' w' Hread.
  assert (Hsig : fst (fst (Directory.__next__ d w)) = Directory.Raised e).
  { unfold Directory.read in Hread.
    destruct (Directory.__next__ d w) as [[sig d0] w0].
    destruct sig; inversion Hread; reflexivity. }
  revert Hsig. unfold Directory.__next__.
  destruct (Directory._md d) as [|start|start rest res|].
  - apply while_loop_raises.
  - apply while_loop_raises.
  - apply for_loop_raises. apply while_loop_raises.
  - discriminate.
Qed.

Lemma listing_raises_backend_errors_only_witness :
  In (Raise (OtherException "timeout"))
     (Directory.replies Cases.failing_listing).
Proof.
  exact (listing_raises_backend_errors_only
           (Directory.__init__ "/docs" "id:docs") Cases.failing_listing
           (OtherException "timeout") _ _ eq_refl).
Defined.

Section ListingRequests.

Import Directory Listing.

Lemma firstn_then_more {A : Type} (k1 k2 : nat) (l : list A) :
  firstn k1 l ++ firstn k2 (skipn k1 l) = firstn (k1 + k2) l.
Proof.
  revert l. induction k1 as [|k1 IH]; intros l; [reflexivity |].
  destruct l as [|a l]; cbn.
  - now destruct k2.
  - now rewrite IH.
Qed.

Lemma request_by_fields (d : _Directory) :
  request d = request (mkDirectory (_path d) "" (_cursor d) Finished).
Proof. reflexivity. Qed.

Lemma for_loop_fetches start es res d w again pages :
  replies w = map Ok pages ->
  fetches (_path d) (Some (cursor res)) pages w
          (again (set_cursor (Some (cursor res)) d) w) ->
  fetches (_path d) (Some (cursor res)) pages w
          (for_loop start es res d w again).
Proof.
  intros Hw Hagain. unfold for_loop.
  destruct (scan start es) as [f rest| |].
  - destruct (_md_to_stat (now w (ticks w)) f) as [st|e];
      exists 0%nat; cbn [firstn skipn];
      rewrite app_nil_r;
      (split; [now destruct (is_FolderMetadata f) |]);
      (split; [now destruct (is_FolderMetadata f) |]);
      (split; [reflexivity |]).
    + now right.
    + now left.
  - exists 0%nat. cbn [firstn skipn]. rewrite app_nil_r.
    repeat split; try assumption. now left.
  - destruct (negb (has_more res)); [| exact Hagain].
    exists 0%nat. cbn [firstn skipn]. rewrite app_nil_r.
    repeat split; try assumption. now left.
Qed.

Lemma while_loop_fetches start pages :
  forall d w,
    replies w = map Ok pages ->
    fetches (_path d) (_cursor d) pages w
            (while_loop start (map Ok pages) d w).
Proof.
  induction pages as [|res pages IH]; intros d w Hw.
  - exists 0%nat. cbn. rewrite app_nil_r. repeat split; try assumption.
    now right.
  - cbn [map while_loop].
    set (w1 := answer (request d) (map Ok pages) w).
    assert (H1 : fetches (_path d) (Some (cursor res)) pages w1
                   (for_loop start (entries res) res d w1
                             (while_loop start (map Ok pages)))).
    { apply for_loop_fetches; [reflexivity |].
      exact (IH (set_cursor (Some (cursor res)) d) w1 eq_refl). }
    destruct (for_loop start (entries res) res d w1
                       (while_loop start (map Ok pages))) as [[sig d'] w'].
    destruct H1 as [k [Hc [Hr [Hp Hn]]]].
    exists (S k). cbn [expected_requests firstn skipn].
    rewrite <- request_by_fields.
    split; [| now repeat split].
    rewrite Hc. unfold w1. cbn [calls answer]. now rewrite <- app_assoc.
Qed.

Lemma next_fetches (d : _Directory) (w : World) pages :
  replies w = map Ok pages ->
  fetches (_path d) (next_cursor d) pages w (__next__ d w).
Proof.
  intros Hw. unfold __next__, next_cursor.
  destruct (_md d) as [|start|start rest res|] eqn:E.
  - rewrite Hw.
    exact (while_loop_fetches (utcnow w (ticks w)) pages
                              (set_cursor None d) (tick w) Hw).
  - rewrite Hw. now apply while_loop_fetches.
  - apply for_loop_fetches; [exact Hw |]. rewrite Hw.
    exact (while_loop_fetches start pages
                              (set_cursor (Some (cursor res)) d) w Hw).
  - exists 0%nat. cbn. rewrite app_nil_r. repeat split; try assumption.
    now left.
Qed.

Lemma read_many_fetches (n : nat) :
  forall d w pages,
    replies w = map Ok pages ->
    exists k,
      calls (snd (read_many n d w))
      = calls w ++ firstn k (expected_requests (_path d) (next_cursor d) pages)
      /\ replies (snd (read_many n d w)) = map Ok (skipn k pages).
Proof.
  induction n as [|n IH]; intros d w pages Hw.
  - exists 0%nat. cbn. now rewrite app_nil_r.
  - pose proof (next_fetches d w pages Hw) as Hstep.
    assert (Hsame : forall r d' w',
               read d w = (r, d', w') ->
               snd (read_many (S n) d w) = snd (read_many n d' w')).
    { intros r d' w' Hr. cbn [read_many]. rewrite Hr.
      destruct r; try reflexivity.
      now destruct (read_many n d' w') as [[l d''] w'']. }
    destruct (read d w) as [[r d'] w'] eqn:Hread.
    rewrite (Hsame r d' w' eq_refl).
    assert (Hnext : __next__ d w = (match r with
                                    | Entry f st => Yield f st
                                    | EndOfSequence => StopIteration
                                    | ReadRaised e => Raised e
                                    | ReadPending => Pending
                                    end, d', w')).
    { unfold read in Hread.
      destruct (__next__ d w) as [[sig d0] w0].
      destruct sig; inversion Hread; reflexivity. }
    rewrite Hnext in Hstep.
    destruct Hstep as [k1 [Hc [Hr [Hp [Hfin | Hn]]]]].
    + exists k1.
      destruct (finished_reads d' w' Hfin) as [_ Hmany].
      now rewrite Hmany.
    + destruct (IH d' w' (skipn k1 pages) Hr) as [k2 [Hk2 Hr2]].
      exists (k1 + k2)%nat. split.
      * rewrite Hk2, Hc, Hp, Hn, <- app_assoc. f_equal.
        apply firstn_then_more.
      * rewrite Hr2, skipn_skipn. now rewrite Nat.add_comm.
Qed.

End ListingRequests.

(** X4: while the backend answers with pages, a listing on a handle
    that has just been made or reset, whatever cursor an earlier
    enumeration left behind, sends one request per page it receives, in
    this order: [files_list_folder] with the handle's path (the empty
    string for ["/"]), then [files_list_folder_continue] with the cursor
    of the page received last.  No page is requested twice. *)
Theorem listing_requests_follow_cursors :
  forall (d : Directory._Directory) (w : Directory.World)
         (pages : list ListFolderResult) (n : nat),
    Directory.replies w = map Ok pages ->
    exists k,
      Directory.calls (snd (Directory.read_many n (Directory.reset d) w))
      = Directory.calls w
        ++ firstn k (Listing.expected_requests (Directory._path d) None pages)
      /\ Directory.replies (snd (Directory.read_many n (Directory.reset d) w))
         = map Ok (skipn k pages).
Proof.
  intros d w pages n Hw.
  exact (read_many_fetches n (Directory.reset d) w pages Hw).
Qed.

Lemma listing_requests_follow_cursors_witness :
  exists k,
    Directory.calls
      (snd (Directory.read_many 5
              (Directory.reset (Directory.mkDirectory "/" "/" (Some "stale")
                                                      Directory.Finished))
              Sample.listing))
    = Directory.calls Sample.listing
      ++ firstn k (Listing.expected_requests "/" None Cases.listing_pages)
    /\ Directory.replies
         (snd (Directory.read_many 5
                 (Directory.reset (Directory.mkDirectory "/" "/" (Some "stale")
                                                         Directory.Finished))
                 Sample.listing))
       = map Ok (skipn k Cases.listing_pages).
Proof.
  exact (listing_requests_follow_cursors
           (Directory.mkDirectory "/" "/" (Some "stale") Directory.Finished)
           Sample.listing Cases.listing_pages 5 eq_refl).
Defined.

(* ================================================================== *)
(** * Further theorems: routing *)
(* ================================================================== *)

Section RoutingFacts.

Import Watch.

Lemma prefix_app_cancel (s a b : string) :
  String.prefix (s ++ a) (s ++ b) = String.prefix a b.
Proof.
  induction s as [|c s IH]; [reflexivity |].
  cbn. destruct (Ascii.ascii_dec c c); [exact IH | congruence].
Qed.

Lemma routed_false_then_true (scope path : string) :
  routed false scope path = true -> routed true scope path = true.
Proof.
  rewrite !routed_as_bool, !andb_true_iff. intros [H _]. now split.
Qed.

Lemma in_collect (wt : bool) (scope : string) (es : list Metadata) (c : Change) :
  In c (collect wt scope es []) <->
  exists entry,
    In entry es /\ routed wt scope (md_path_lower entry) = true
    /\ c = change_of entry.
Proof.
  rewrite collect_acc. cbn [app]. rewrite in_map_iff. split.
  - intros [e [Hc Hin]]. apply filter_In in Hin. exists e. now repeat split.
  - intros [e [Hin [Hr Hc]]]. exists e. split; [now symmetry |].
    apply filter_In. now split.
Qed.

End RoutingFacts.

(** X5: a watch on a directory other than ["/"] is never handed a change
    at a path that merely begins with the directory's name, such as
    [/a/bc/x] for a watch on [/a/b]: the character after the scope path
    has to be the separator. *)
Theorem routing_excludes_name_siblings :
  forall (wt : bool) (scope : string) (c : ascii) (rest : string),
    scope <> "/"%string ->
    c <> "/"%char ->
    Watch.routed wt scope (scope ++ String c rest) = false.
Proof.
  intros wt scope c rest Hscope Hc.
  rewrite routed_as_bool. unfold startswith, Watch.prefix_ndirpath.
  destruct (String.eqb_spec scope "/") as [->|_]; [congruence |].
  rewrite prefix_app_cancel. cbn [String.prefix andb].
  destruct (Ascii.ascii_dec "/"%char c) as [<-|_]; [congruence | reflexivity].
Qed.

Lemma routing_excludes_name_siblings_witness :
  Watch.routed true "/a/b" "/a/bc/x" = false.
Proof.
  apply (routing_excludes_name_siblings true "/a/b" "c"%char "/x");
    discriminate.
Defined.

(** X6: every change handed to a watch on a directory is handed to a
    recursive watch on the same directory as well. *)
Theorem recursive_watch_gets_more :
  forall (scope : string) (es : list Metadata) (c : Watch.Change),
    In c (Watch.collect false scope es []) ->
    In c (Watch.collect true scope es []).
Proof.
  intros scope es c. rewrite !in_collect.
  intros [e [Hin [Hr Hc]]]. exists e. repeat split; try assumption.
  now apply routed_false_then_true.
Qed.

Lemma recursive_watch_gets_more_witness :
  In (Watch.mkChange "removed" "a.txt")
     (Watch.collect true "/docs" (entries Sample.batch) []).
Proof.
  apply recursive_watch_gets_more. left. reflexivity.
Defined.

(** X7: every change on the list handed to a callback comes from an
    entry of the batch that is routed to the watch, carries that entry's
    name, and is marked ["removed"] if the entry is a tombstone and
    ["modified"] if it is not; no change is ever marked ["added"]. *)
Theorem changes_are_removed_or_modified :
  forall (wt : bool) (scope : string) (es : list Metadata) (c : Watch.Change),
    In c (Watch.collect wt scope es []) ->
    exists entry,
      In entry es
      /\ Watch.routed wt scope (md_path_lower entry) = true
      /\ Watch.filename c = md_name entry
      /\ Watch.action c
         = (if is_DeletedMetadata entry then "removed" else "modified")%string
      /\ Watch.action c <> "added"%string.
Proof.
  intros wt scope es c Hin. apply in_collect in Hin.
  destruct Hin as [e [Hin [Hr ->]]]. exists e.
  repeat split; try assumption.
  cbn. now destruct (is_DeletedMetadata e).
Qed.

Lemma changes_are_removed_or_modified_witness :
  exists entry,
    In entry (entries Sample.batch)
    /\ Watch.routed false "/docs" (md_path_lower entry) = true
    /\ Watch.filename (Watch.mkChange "removed" "a.txt") = md_name entry
    /\ Watch.action (Watch.mkChange "removed" "a.txt")
       = (if is_DeletedMetadata entry then "removed" else "modified")%string
    /\ Watch.action (Watch.mkChange "removed" "a.txt") <> "added"%string.
Proof.
  apply (changes_are_removed_or_modified false "/docs" (entries Sample.batch)).
  left. reflexivity.
Defined.

(* ================================================================== *)
(** * Further theorems: the poller *)
(* ================================================================== *)

Section PollerFacts.

Import Watch Polling.

(** A property of single observations that holds of everything the
    loop over the watches emits holds of its whole trace. *)
Lemma serve_trace (P : obs -> bool) (flag : bool) (res : ListFolderResult)
      (i : nat) (t : tag) :
  (forall arg r, arg <> CbChanges [] -> P (Invoked i (cb_id (cb t)) arg r) = true) ->
  (forall msg, P (Logged msg) = true) ->
  forallb P (fst (serve flag res i t)) = true.
Proof.
  intros Hinv Hlog. unfold serve.
  set (ts := collect (watch_tree t) (File._path_lower (dir_handle t))
                     (entries res) []).
  assert (Hafter :
    forallb P
      match ts with
      | [] => []
      | _ :: _ =>
          Invoked i (cb_id (cb t)) (CbChanges ts) (cb_call (cb t) (CbChanges ts))
          :: match cb_call (cb t) (CbChanges ts) with
             | Some _ => [Logged "failure during watch callback"]
             | None => []
             end
      end = true).
  { destruct ts as [|c l]; [reflexivity |].
    cbn [forallb]. rewrite Hinv by discriminate.
    destruct (cb_call (cb t) (CbChanges (c :: l))); cbn;
      [now rewrite Hlog | reflexivity]. }
  destruct flag; [| exact Hafter].
  destruct (cb_call (cb t) CbReset); cbn [fst forallb];
    rewrite Hinv by discriminate; [reflexivity | exact Hafter].
Qed.

Lemma serve_all_trace (P : obs -> bool) (flag : bool) (res : ListFolderResult)
      (ws : list tag) :
  (forall i id arg r, arg <> CbChanges [] -> P (Invoked i id arg r) = true) ->
  (forall msg, P (Logged msg) = true) ->
  forall i, forallb P (fst (serve_all flag res i ws)) = true.
Proof.
  intros Hinv Hlog. induction ws as [|t ws IH]; intros i; [reflexivity |].
  cbn [serve_all].
  pose proof (serve_trace P flag res i t (Hinv i (cb_id (cb t))) Hlog) as Ht.
  destruct (serve flag res i t) as [tr [e|]]; [exact Ht |].
  specialize (IH (S i)).
  destruct (serve_all flag res (S i) ws) as [tr' r]. cbn [fst] in *.
  now rewrite forallb_app, Ht, IH.
Qed.

Lemma pass_trace (P : obs -> bool) (p : poller) (c : cycle) :
  (forall i id arg r, arg <> CbChanges [] -> P (Invoked i id arg r) = true) ->
  (forall msg, P (Logged msg) = true) ->
  (forall secs, P (Slept secs) = true) ->
  forallb P (fst (fst (fetch p c))) = true ->
  forallb P (fst (pass p c)) = true.
Proof.
  intros Hinv Hlog Hslept Hfetch. unfold pass.
  destruct (fetch p c) as [[tr cur] r]. cbn [fst] in Hfetch.
  destruct r as [res|e].
  - pose proof (serve_all_trace P (needs_reset p) res (registered c)
                                Hinv Hlog 0%nat) as Hs.
    destruct (serve_all (needs_reset p) res 0 (registered c)) as [tr' [e|]];
      cbn [fst] in Hs.
    + cbn [fst]. now rewrite forallb_app, Hfetch, Hs.
    + destruct (negb (has_more res)).
      * rewrite sleep_raises. cbn [fst]. now rewrite forallb_app, Hfetch, Hs.
      * cbn [fst]. now rewrite forallb_app, Hfetch, Hs.
  - rewrite sleep_raises. cbn [fst].
    rewrite forallb_app, Hfetch. cbn. now rewrite Hlog.
Qed.

(** The pass that leaves the poller alive. *)
Lemma pass_alive (p : poller) (c : cycle) (p' : poller) :
  snd (pass p c) = Alive p' <->
  exists res,
    snd (fetch p c) = Ok res
    /\ has_more res = true
    /\ snd (serve_all (needs_reset p) res 0 (registered c)) = None
    /\ p' = mkPoller (Some (cursor res)) false.
Proof.
  unfold pass. destruct (fetch p c) as [[tr cur] r]. cbn [snd].
  destruct r as [res|e].
  - destruct (serve_all (needs_reset p) res 0 (registered c)) as [tr' [e|]]
      eqn:Hs; cbn [snd].
    + split; [discriminate |]. intros [res' [H [_ [H' _]]]].
      inversion H; subst. rewrite Hs in H'. discriminate.
    + destruct (has_more res) eqn:Hm; cbn [negb].
      * cbn [snd]. split.
        -- intros H. inversion H. exists res. rewrite Hs. now repeat split.
        -- intros [res' [H [_ [_ ->]]]]. now inversion H.
      * rewrite sleep_raises. cbn [snd]. split; [discriminate |].
        intros [res' [H [Hm' _]]]. inversion H; subst. congruence.
  - rewrite sleep_raises. cbn [snd]. split; [discriminate |].
    intros [res' [H _]]. discriminate.
Qed.

End PollerFacts.

Section PollerCounts.

Import Watch Polling.

Lemma forallb_negb_filter {A : Type} (P : A -> bool) (l : list A) :
  forallb (fun x => negb (P x)) l = true -> filter P l = [].
Proof.
  induction l as [|a l IH]; [reflexivity |].
  cbn. destruct (P a); cbn; [discriminate | exact IH].
Qed.

Lemma latest_requests_app (a b : list obs) :
  latest_requests (a ++ b) = (latest_requests a + latest_requests b)%nat.
Proof.
  unfold latest_requests. now rewrite filter_app, List.length_app.
Qed.

Lemma serve_all_no_latest flag res i ws :
  latest_requests (fst (serve_all flag res i ws)) = 0%nat.
Proof.
  unfold latest_requests. rewrite forallb_negb_filter; [reflexivity |].
  now apply serve_all_trace.
Qed.

Lemma pass_latest_requests (p : poller) (c : cycle) :
  latest_requests (fst (pass p c))
  = match p_cursor p with None => 1%nat | Some _ => 0%nat end.
Proof.
  unfold pass.
  assert (Hf : latest_requests (fst (fst (fetch p c)))
               = match p_cursor p with None => 1%nat | Some _ => 0%nat end).
  { unfold fetch. destruct (p_cursor p); [reflexivity |].
    now destruct (latest_cursor c). }
  destruct (fetch p c) as [[tr cur] r]. cbn [fst] in Hf.
  destruct r as [res|e].
  - pose proof (serve_all_no_latest (needs_reset p) res 0%nat (registered c)) as Hs.
    destruct (serve_all (needs_reset p) res 0 (registered c)) as [tr' [e|]];
      cbn [fst] in Hs.
    + cbn [fst]. rewrite latest_requests_app, Hf, Hs. lia.
    + destruct (negb (has_more res)).
      * rewrite sleep_raises. cbn [fst].
        rewrite latest_requests_app, Hf, Hs. lia.
      * cbn [fst]. rewrite latest_requests_app, Hf, Hs. lia.
  - rewrite sleep_raises. cbn [fst].
    rewrite latest_requests_app, Hf. cbn. lia.
Qed.

Lemma loop_latest_requests (cs : list cycle) :
  forall cur flag,
    latest_requests (fst (loop (mkPoller (Some cur) flag) cs)) = 0%nat.
Proof.
  induction cs as [|c cs IH]; intros cur flag; [reflexivity |].
  cbn [loop].
  pose proof (pass_latest_requests (mkPoller (Some cur) flag) c) as Hp.
  pose proof (pass_alive (mkPoller (Some cur) flag) c) as Ha.
  destruct (pass (mkPoller (Some cur) flag) c) as [tr [p'|e]];
    cbn [fst snd p_cursor] in *; [| exact Hp].
  destruct (proj1 (Ha p') eq_refl) as [res [_ [_ [_ ->]]]].
  specialize (IH (cursor res) false).
  destruct (loop (mkPoller (Some (cursor res)) false) cs) as [tr' s].
  cbn [fst] in *. rewrite latest_requests_app, Hp, IH. reflexivity.
Qed.

Lemma loop_trace (P : obs -> bool) (cs : list cycle) :
  (forall i id arg r, arg <> CbChanges [] -> P (Invoked i id arg r) = true) ->
  (forall msg, P (Logged msg) = true) ->
  (forall secs, P (Slept secs) = true) ->
  (forall c, P (Called c) = true) ->
  forall p, forallb P (fst (loop p cs)) = true.
Proof.
  intros Hinv Hlog Hslept Hcall.
  induction cs as [|c cs IH]; intros p; [reflexivity |].
  cbn [loop].
  assert (Hp : forallb P (fst (pass p c)) = true).
  { apply pass_trace; try assumption.
    unfold fetch. destruct (p_cursor p).
    - cbn. now rewrite Hcall.
    - destruct (latest_cursor c); cbn; now rewrite !Hcall. }
  destruct (pass p c) as [tr [p'|e]]; cbn [fst] in *; [| exact Hp].
  specialize (IH p'). destruct (loop p' cs) as [tr' s]. cbn [fst] in *.
  now rewrite forallb_app, Hp, IH.
Qed.

End PollerCounts.

(** X8: in every run of the poller, whatever the backend answers and
    whatever the callbacks do, no callback is ever invoked with an empty
    list of changes. *)
Theorem callbacks_never_get_empty_list :
  forall (p : Watch.poller) (cs : list Watch.cycle),
    forallb Polling.nonempty_changes (fst (Watch.loop p cs)) = true.
Proof.
  intros p cs. apply loop_trace; try reflexivity.
  intros i id arg r Harg. destruct arg as [|l]; [reflexivity |].
  destruct l; [congruence | reflexivity].
Qed.

(** X9: a pass leaves the poller alive exactly when the fetch returned a
    batch, the batch announces further pages and no exception left the
    loop over the watches; the poller then holds the batch's cursor and
    a cleared reset flag.  After a batch without further pages the
    thread is dead. *)
Theorem pass_survives_only_with_more_pages :
  forall (p : Watch.poller) (c : Watch.cycle) (p' : Watch.poller),
    snd (Watch.pass p c) = Watch.Alive p' <->
    exists res,
      snd (Watch.fetch p c) = Ok res
      /\ has_more res = true
      /\ snd (Watch.serve_all (Watch.needs_reset p) res 0 (Watch.registered c))
         = None
      /\ p' = Watch.mkPoller (Some (cursor res)) false.
Proof.
  exact pass_alive.
Qed.

Lemma pass_survives_only_with_more_pages_witness :
  snd (Watch.pass (Watch.mkPoller None true) Cases.first_cycle)
  = Watch.Alive (Watch.mkPoller (Some "c1") false)
  /\ exists res,
      snd (Watch.fetch (Watch.mkPoller (Some "c1") false) Cases.first_cycle)
      = Ok res
      /\ has_more res = true
      /\ snd (Watch.serve_all false res 0 (Watch.registered Cases.first_cycle))
         = None
      /\ Watch.mkPoller (Some "c1") false
         = Watch.mkPoller (Some (cursor res)) false.
Proof.
  split.
  - apply (proj2 (pass_survives_only_with_more_pages
                    (Watch.mkPoller None true) Cases.first_cycle
                    (Watch.mkPoller (Some "c1") false))).
    exists Sample.batch. repeat split.
  - apply (proj1 (pass_survives_only_with_more_pages
                    (Watch.mkPoller (Some "c1") false) Cases.first_cycle
                    (Watch.mkPoller (Some "c1") false))).
    reflexivity.
Defined.

(** X10: the thread asks for the latest cursor once, in its first pass,
    and never again, whatever happens afterwards; a loop that holds a
    cursor never asks for it. *)
Theorem latest_cursor_requested_once :
  forall (c : Watch.cycle) (cs : list Watch.cycle),
    Polling.latest_requests (fst (Watch.delta_thread (c :: cs))) = 1%nat
    /\ forall cur flag,
        Polling.latest_requests
          (fst (Watch.loop (Watch.mkPoller (Some cur) flag) (c :: cs)))
        = 0%nat.
Proof.
  intros c cs. split; [| intros; apply loop_latest_requests].
  unfold Watch.delta_thread. cbn [Watch.loop].
  pose proof (pass_latest_requests (Watch.mkPoller None true) c) as Hp.
  pose proof (pass_alive (Watch.mkPoller None true) c) as Ha.
  destruct (Watch.pass (Watch.mkPoller None true) c) as [tr [p'|e]];
    cbn [fst snd Watch.p_cursor] in *; [| exact Hp].
  destruct (proj1 (Ha p') eq_refl) as [res [_ [_ [_ ->]]]].
  pose proof (loop_latest_requests cs (cursor res) false) as Hl.
  destruct (Watch.loop (Watch.mkPoller (Some (cursor res)) false) cs)
    as [tr' s].
  cbn [fst] in *. rewrite latest_requests_app, Hp, Hl. reflexivity.
Qed.

Section PollerResets.

Import Watch Polling.

Lemma first_for_app (k : nat) (a b : list obs) :
  first_for k (a ++ b)
  = match first_for k a with Some x => Some x | None => first_for k b end.
Proof.
  induction a as [|o a IH]; [reflexivity |].
  cbn. destruct o; try exact IH.
  destruct (Nat.eqb position k); [reflexivity | exact IH].
Qed.

(** The body for the watch at position [i] calls no other position. *)
Lemma serve_only_own (flag : bool) (res : ListFolderResult) (t : tag)
      (i j : nat) :
  j <> i -> first_for j (fst (serve flag res i t)) = None.
Proof.
  intros Hji. unfold serve.
  set (ts := collect (watch_tree t) (File._path_lower (dir_handle t))
                     (entries res) []).
  assert (Hne : Nat.eqb i j = false) by (apply Nat.eqb_neq; congruence).
  assert (Hafter :
    first_for j
      match ts with
      | [] => []
      | _ :: _ =>
          Invoked i (cb_id (cb t)) (CbChanges ts)
                  (cb_call (cb t) (CbChanges ts))
          :: match cb_call (cb t) (CbChanges ts) with
             | Some _ => [Logged "failure during watch callback"]
             | None => []
             end
      end = None).
  { destruct ts as [|c l]; [reflexivity |]. cbn. rewrite Hne.
    now destruct (cb_call (cb t) (CbChanges (c :: l))). }
  destruct flag; [| exact Hafter].
  destruct (cb_call (cb t) CbReset); cbn [fst first_for]; rewrite Hne;
    [reflexivity | exact Hafter].
Qed.

(** The loop over the watches from position [i] on calls no position
    below [i]. *)
Lemma serve_all_from (flag : bool) (res : ListFolderResult) (ws : list tag) :
  forall i j, (j < i)%nat -> first_for j (fst (serve_all flag res i ws)) = None.
Proof.
  induction ws as [|t ws IH]; intros i j Hlt; [reflexivity |].
  cbn [serve_all].
  assert (Ht : first_for j (fst (serve flag res i t)) = None)
    by (apply serve_only_own; lia).
  destruct (serve flag res i t) as [tr [e|]]; [exact Ht |].
  specialize (IH (S i) j (Nat.lt_lt_succ_r _ _ Hlt)).
  destruct (serve_all flag res (S i) ws) as [tr' r]. cbn [fst] in *.
  now rewrite first_for_app, Ht, IH.
Qed.

(** With the flag set, every position is called with ['reset'] first. *)
Lemma serve_all_reset_first (res : ListFolderResult) (ws : list tag) :
  Forall accepts_reset ws ->
  forall i k, (k < List.length ws)%nat ->
              first_for (i + k) (fst (serve_all true res i ws)) = Some CbReset.
Proof.
  induction 1 as [|t ws Ht Hws IH]; intros i k Hlt; [cbn in Hlt; lia |].
  cbn [serve_all].
  destruct (serve_resets res i t Ht) as [tr [-> [_ Hfalse]]].
  pose proof (fun j => serve_only_own false res t i j) as Hown.
  rewrite Hfalse in Hown. cbn [fst] in Hown.
  specialize (IH (S i)).
  destruct (serve_all true res (S i) ws) as [tr' r]. cbn [fst] in *.
  destruct k as [|k].
  - rewrite Nat.add_0_r. cbn [app first_for]. now rewrite Nat.eqb_refl.
  - cbn [app first_for].
    destruct (Nat.eqb_spec i (i + S k)); [lia |].
    rewrite first_for_app, Hown by lia.
    replace (i + S k)%nat with (S i + k)%nat by lia.
    apply IH. cbn in Hlt. lia.
Qed.

End PollerResets.

Section PollerPasses.

Import Watch Polling.

Lemma fetch_trace_calls (p : poller) (c : cycle) (k : nat) :
  resets_for k (fst (fst (fetch p c))) = 0%nat
  /\ first_for k (fst (fst (fetch p c))) = None.
Proof.
  unfold fetch. destruct (p_cursor p); [now split |].
  destruct (latest_cursor c); now split.
Qed.

Lemma serve_all_false_no_reset (res : ListFolderResult) (ws : list tag) :
  forall i k, resets_for k (fst (serve_all false res i ws)) = 0%nat.
Proof.
  induction ws as [|t ws IH]; intros i k; [reflexivity |].
  cbn [serve_all].
  assert (Ht : resets_for k (fst (serve false res i t)) = 0%nat).
  { unfold serve.
    destruct (collect (watch_tree t) (File._path_lower (dir_handle t))
                      (entries res) []) as [|ch l]; [reflexivity |].
    now destruct (cb_call (cb t) (CbChanges (ch :: l))). }
  destruct (serve false res i t) as [tr [e|]]; [exact Ht |].
  specialize (IH (S i) k).
  destruct (serve_all false res (S i) ws) as [tr' r]. cbn [fst] in *.
  now rewrite resets_for_app, Ht, IH.
Qed.

(** A pass whose fetch returned a batch with further pages and whose
    loop over the watches raised nothing. *)
Lemma pass_served (p : poller) (c : cycle) (res : ListFolderResult) :
  snd (fetch p c) = Ok res ->
  has_more res = true ->
  snd (serve_all (needs_reset p) res 0 (registered c)) = None ->
  pass p c
  = (fst (fst (fetch p c))
     ++ fst (serve_all (needs_reset p) res 0 (registered c)),
     Alive (mkPoller (Some (cursor res)) false)).
Proof.
  unfold pass. destruct (fetch p c) as [[tr cur] r]. cbn [fst snd].
  intros -> Hm.
  destruct (serve_all (needs_reset p) res 0 (registered c)) as [tr' r].
  cbn [fst snd]. intros ->. now rewrite Hm.
Qed.

End PollerPasses.

(** X11: in a pass that starts with the reset flag set, whose fetch
    returns a batch that announces further pages, and whose watches all
    have callbacks that accept ['reset']: every watch of the snapshot is
    called with ['reset'] exactly once, before it is called with any
    change list, and the pass ends with the flag cleared and the batch's
    cursor held. *)
Theorem reset_pass_resets_every_watch :
  forall (p : Watch.poller) (c : Watch.cycle) (res : ListFolderResult),
    Watch.needs_reset p = true ->
    snd (Watch.fetch p c) = Ok res ->
    has_more res = true ->
    Forall Polling.accepts_reset (Watch.registered c) ->
    snd (Watch.pass p c) = Watch.Alive (Watch.mkPoller (Some (cursor res)) false)
    /\ forall k, (k < List.length (Watch.registered c))%nat ->
                 Watch.resets_for k (fst (Watch.pass p c)) = 1%nat
                 /\ Polling.first_for k (fst (Watch.pass p c))
                    = Some Watch.CbReset.
Proof.
  intros p c res Hflag Hfetch Hmore Hacc.
  destruct (serve_all_resets_once res (Watch.registered c) Hacc 0%nat)
    as [Hnone [Hone _]].
  rewrite (pass_served p c res Hfetch Hmore) by (now rewrite Hflag).
  split; [reflexivity |]. intros k Hk. cbn [fst].
  destruct (fetch_trace_calls p c k) as [Hr Hf].
  rewrite resets_for_app, first_for_app, Hr, Hf, Hflag. split.
  - exact (Hone k Hk).
  - exact (serve_all_reset_first res (Watch.registered c) Hacc 0%nat k Hk).
Qed.

Lemma reset_pass_resets_every_watch_witness :
  snd (Watch.pass (Watch.mkPoller None true) Cases.first_cycle)
  = Watch.Alive (Watch.mkPoller (Some "c1") false)
  /\ forall k, (k < 2)%nat ->
               Watch.resets_for k
                 (fst (Watch.pass (Watch.mkPoller None true) Cases.first_cycle))
               = 1%nat
               /\ Polling.first_for k
                    (fst (Watch.pass (Watch.mkPoller None true)
                                     Cases.first_cycle))
                  = Some Watch.CbReset.
Proof.
  apply (reset_pass_resets_every_watch
           (Watch.mkPoller None true) Cases.first_cycle Sample.batch).
  - reflexivity.
  - reflexivity.
  - reflexivity.
  - repeat constructor.
Defined.

(** X12: in a pass that starts without the reset flag and whose fetch
    returns a batch that announces further pages, no callback can end
    the thread: whatever the callbacks raise, the pass ends alive with
    the batch's cursor, and no watch is called with ['reset']. *)
Theorem callback_failures_stay_contained :
  forall (p : Watch.poller) (c : Watch.cycle) (res : ListFolderResult),
    Watch.needs_reset p = false ->
    snd (Watch.fetch p c) = Ok res ->
    has_more res = true ->
    snd (Watch.pass p c) = Watch.Alive (Watch.mkPoller (Some (cursor res)) false)
    /\ forall k, Watch.resets_for k (fst (Watch.pass p c)) = 0%nat.
Proof.
  intros p c res Hflag Hfetch Hmore.
  rewrite (pass_served p c res Hfetch Hmore)
    by (rewrite Hflag; apply serve_all_guarded).
  split; [reflexivity |]. intros k. cbn [fst].
  destruct (fetch_trace_calls p c k) as [Hr _].
  rewrite resets_for_app, Hr, Hflag. apply serve_all_false_no_reset.
Qed.

Lemma callback_failures_stay_contained_witness :
  snd (Watch.pass (Watch.mkPoller (Some "c0") false) Cases.first_cycle)
  = Watch.Alive (Watch.mkPoller (Some "c1") false)
  /\ forall k,
      Watch.resets_for k
        (fst (Watch.pass (Watch.mkPoller (Some "c0") false) Cases.first_cycle))
      = 0%nat.
Proof.
  apply (callback_failures_stay_contained
           (Watch.mkPoller (Some "c0") false) Cases.first_cycle Sample.batch);
    reflexivity.
Defined.

(* ================================================================== *)
(** * Further theorems: the facade *)
(* ================================================================== *)



(** X14: [open] and [open_directory] do not look at the kind of the
    entry: for every file or folder descriptor the backend returns (with
    an id, at a path other than ["/"]) both succeed, and the handle
    carries the descriptor's lower-cased path and id; a file handle
    starts at offset 0 and a directory handle with a generator that has
    not run. *)
Theorem open_ignores_entry_kind :
  forall (get_metadata : string -> result Metadata) (oid : nat)
         (p : string) (md : Metadata) (i : string),
    p <> "/"%string ->
    get_metadata p = Ok md ->
    md_id md = Ok i ->
    md_path_lower md <> "/"%string ->
    FileSystem.open get_metadata oid p
    = (Ok (File.mkFile (md_path_lower md) i 0 oid),
       [FileSystem.files_get_metadata p])
    /\ FileSystem.open_directory get_metadata p
       = (Ok (Directory.mkDirectory (md_path_lower md) i None Directory.Created),
          [FileSystem.files_get_metadata p]).
Proof.
  intros get_metadata oid p md i Hp Hmd Hid Hroot.
  unfold FileSystem.open, FileSystem.open_directory, FileSystem._get_md_inner,
    FileSystem.handle_id.
  destruct (String.eqb_spec p "/") as [->|_]; [congruence |].
  rewrite Hmd. cbn [bind].
  destruct (String.eqb_spec (md_path_lower md) "/") as [E|_]; [congruence |].
  rewrite Hid. split; reflexivity.
Qed.

Lemma open_ignores_entry_kind_witness :
  FileSystem.open Sample.get_metadata 5 "/docs"
  = (Ok (File.mkFile "/docs" "id:docs" 0 5),
     [FileSystem.files_get_metadata "/docs"])
  /\ FileSystem.open_directory Sample.get_metadata "/docs/a.txt"
     = (Ok (Directory.mkDirectory "/docs/a.txt" "id:a" None Directory.Created),
        [FileSystem.files_get_metadata "/docs/a.txt"]).
Proof.
  split.
  - apply (open_ignores_entry_kind Sample.get_metadata 5 "/docs"
             (FolderMetadata "docs" "/docs" (Some "id:docs")) "id:docs");
      try reflexivity; discriminate.
  - apply (open_ignores_entry_kind Sample.get_metadata 5 "/docs/a.txt"
             Sample.a_md "id:a");
      try reflexivity; discriminate.
Defined.

Section Registry.

Import Watch FileSystem.

Lemma tag_eqb_refl (t : tag) : tag_eqb t t = true.
Proof.
  unfold tag_eqb.
  now rewrite !Nat.eqb_refl, Z.eqb_refl, Bool.eqb_reflx.
Qed.

Lemma list_remove_last (t : tag) (ws : list tag) :
  forallb (fun x => negb (tag_eqb x t)) ws = true ->
  list_remove t (ws ++ [t]) = Ok ws.
Proof.
  induction ws as [|x ws IH]; cbn.
  - intros _. now rewrite tag_eqb_refl.
  - destruct (tag_eqb x t); cbn; [discriminate |].
    intros H. now rewrite (IH H).
Qed.

Lemma list_remove_absent (t : tag) (ws : list tag) :
  forallb (fun x => negb (tag_eqb x t)) ws = true ->
  list_remove t ws = Raise (ValueError "list.remove(x): x not in list").
Proof.
  induction ws as [|x ws IH]; cbn; [reflexivity |].
  destruct (tag_eqb x t); cbn; [discriminate |].
  intros H. now rewrite (IH H).
Qed.

Lemma list_remove_splits (t : tag) (ws ws' : list tag) :
  list_remove t ws = Ok ws' ->
  exists l1 x l2,
    ws = l1 ++ x :: l2
    /\ tag_eqb x t = true
    /\ forallb (fun y => negb (tag_eqb y t)) l1 = true
    /\ ws' = l1 ++ l2.
Proof.
  revert ws'. induction ws as [|y ws IH]; intros ws'; cbn; [discriminate |].
  destruct (tag_eqb y t) eqn:E.
  - intros H. inversion H; subst. now exists [], y, ws'.
  - destruct (list_remove t ws) as [l|e]; cbn; [| discriminate].
    intros H. inversion H; subst.
    destruct (IH l eq_refl) as [l1 [x [l2 [-> [Hx [Hl1 ->]]]]]].
    exists (y :: l1), x, l2. cbn. rewrite E. now repeat split.
Qed.

End Registry.

(** X15: registering a watch and then calling the returned [stop] gives
    back the registry as it was, provided no equal registration (same
    callback, same handle, same filter and flag) was in it; calling
    [stop] a second time raises [ValueError] and changes nothing. *)
Theorem create_then_stop_restores_registry :
  forall (self : FileSystem.FileSystem) (cb : Watch.callback)
         (f : File._File) (completion_filter : Z) (watch_tree : bool),
    forallb (fun x => negb (FileSystem.tag_eqb x
                              (Watch.mkTag cb f completion_filter watch_tree)))
            (FileSystem._watches self) = true ->
    exists s fs',
      FileSystem.create_watch self cb (FileSystem.HFile f)
                              completion_filter watch_tree = (Ok s, fs')
      /\ FileSystem.stop s fs' = (Ok tt, self)
      /\ FileSystem.stop s self
         = (Raise (ValueError "list.remove(x): x not in list"), self).
Proof.
  intros self cb f completion_filter watch_tree Hfresh.
  do 2 eexists. split; [reflexivity |].
  unfold FileSystem.stop. cbn [FileSystem.stop_tag FileSystem._watches
                               FileSystem._access_token].
  rewrite (list_remove_last _ _ Hfresh), (list_remove_absent _ _ Hfresh).
  split; [now destruct self | reflexivity].
Qed.

Lemma create_then_stop_restores_registry_witness :
  exists s fs',
    FileSystem.create_watch (FileSystem.mkFileSystem "token" [Sample.watch_quiet])
      Sample.grumpy (FileSystem.HFile (Sample.docs_handle 13)) 0 false
    = (Ok s, fs')
    /\ FileSystem.stop s fs'
       = (Ok tt, FileSystem.mkFileSystem "token" [Sample.watch_quiet])
    /\ FileSystem.stop s (FileSystem.mkFileSystem "token" [Sample.watch_quiet])
       = (Raise (ValueError "list.remove(x): x not in list"),
          FileSystem.mkFileSystem "token" [Sample.watch_quiet]).
Proof.
  apply (create_then_stop_restores_registry
           (FileSystem.mkFileSystem "token" [Sample.watch_quiet])
           Sample.grumpy (Sample.docs_handle 13) 0 false).
  reflexivity.
Defined.

(** X16: a successful [stop] removes exactly one registration, the
    first one equal to the capability's tuple, and keeps all others in
    their order; an equal registration made twice stays registered
    once. *)
Theorem stop_removes_first_equal :
  forall (s : FileSystem.stop_capability) (self fs' : FileSystem.FileSystem),
    FileSystem.stop s self = (Ok tt, fs') ->
    exists l1 x l2,
      FileSystem._watches self = l1 ++ x :: l2
      /\ FileSystem.tag_eqb x (FileSystem.stop_tag s) = true
      /\ forallb (fun y => negb (FileSystem.tag_eqb y (FileSystem.stop_tag s)))
                 l1 = true
      /\ FileSystem._watches fs' = l1 ++ l2
      /\ FileSystem._access_token fs' = FileSystem._access_token self.
Proof.
  intros s self fs'. unfold FileSystem.stop.
  destruct (FileSystem.list_remove (FileSystem.stop_tag s)
                                   (FileSystem._watches self)) as [l|e] eqn:E;
    [| discriminate].
  intros H. inversion H; subst. cbn.
  destruct (list_remove_splits _ _ _ E) as [l1 [x [l2 [H1 [H2 [H3 H4]]]]]].
  exists l1, x, l2. now repeat split.
Qed.

Lemma stop_removes_first_equal_witness :
  exists l1 x l2,
    [Sample.watch_quiet; Sample.watch_grumpy; Sample.watch_quiet]
    = l1 ++ x :: l2
    /\ FileSystem.tag_eqb x Sample.watch_quiet = true
    /\ forallb (fun y => negb (FileSystem.tag_eqb y Sample.watch_quiet)) l1
       = true
    /\ [Sample.watch_grumpy; Sample.watch_quiet] = l1 ++ l2
    /\ "token"%string = "token"%string.
Proof.
  exact (stop_removes_first_equal
           (FileSystem.mkStop Sample.watch_quiet)
           (FileSystem.mkFileSystem "token"
              [Sample.watch_quiet; Sample.watch_grumpy; Sample.watch_quiet])
           (FileSystem.mkFileSystem "token"
              [Sample.watch_grumpy; Sample.watch_quiet])
           eq_refl).
Defined.

Section ClientCache.

Import Clients.

Lemma slot_eqb_eq (a b : slot) : slot_eqb a b = true <-> a = b.
Proof.
  destruct a as [t1 a1], b as [t2 a2]. unfold slot_eqb. cbn.
  rewrite andb_true_iff, Nat.eqb_eq. split.
  - intros [-> H]. destruct a1, a2; try discriminate; reflexivity.
  - intros H. inversion H; subst. split; [reflexivity | now destruct a2].
Qed.

Lemma slot_eqb_refl (a : slot) : slot_eqb a a = true.
Proof. now apply slot_eqb_eq. Qed.

Lemma cached_keeps (token : string) (a : api) (thread : nat) (l : Local) :
  well_formed token l /\ distinct_clients l ->
  well_formed token (snd (cached token a thread l))
  /\ distinct_clients (snd (cached token a thread l)).
Proof.
  intros [Hwf Hd]. unfold cached.
  destruct (getattr (thread, a) (slots l)) as [c|] eqn:E; [now split |].
  cbn [snd]. split.
  - intros s c. cbn [slots getattr constructed].
    destruct (slot_eqb (thread, a) s) eqn:Es.
    + intros H. inversion H; subst. cbn.
      apply slot_eqb_eq in Es. subst s. repeat split. lia.
    + intros H. destruct (Hwf s c H) as [H1 [H2 H3]]. repeat split; auto.
  - intros s1 s2 c1 c2. cbn [slots getattr].
    destruct (slot_eqb (thread, a) s1) eqn:E1;
      destruct (slot_eqb (thread, a) s2) eqn:E2.
    + intros _ _ _. apply slot_eqb_eq in E1, E2. subst. apply slot_eqb_refl.
    + intros H1 H2 Ho. inversion H1; subst. cbn in Ho.
      destruct (Hwf s2 c2 H2) as [_ [_ Hlt]]. lia.
    + intros H1 H2 Ho. inversion H2; subst. cbn in Ho.
      destruct (Hwf s1 c1 H1) as [_ [_ Hlt]]. lia.
    + apply Hd.
Qed.

Lemma after_keeps (token : string) (hist : list slot) :
  forall l,
    well_formed token l /\ distinct_clients l ->
    well_formed token (after token hist l)
    /\ distinct_clients (after token hist l).
Proof.
  induction hist as [|[thread a] hist IH]; intros l H; [exact H |].
  cbn [after]. apply IH. now apply cached_keeps.
Qed.

Lemma fresh_ok (token : string) :
  well_formed token fresh /\ distinct_clients fresh.
Proof. split; intros s; intros; discriminate. Qed.

(** What an access returns is afterwards stored under its slot. *)
Lemma cached_stores (token : string) (a : api) (thread : nat) (l : Local) :
  getattr (thread, a) (slots (snd (cached token a thread l)))
  = Some (fst (cached token a thread l)).
Proof.
  unfold cached.
  destruct (getattr (thread, a) (slots l)) as [c|] eqn:E; [exact E |].
  cbn. now rewrite slot_eqb_refl.
Qed.

(** An access leaves the other slots as they were. *)
Lemma cached_frames (token : string) (a : api) (thread : nat) (l : Local)
      (s : slot) :
  s <> (thread, a) ->
  getattr s (slots (snd (cached token a thread l))) = getattr s (slots l).
Proof.
  intros Hs. unfold cached.
  destruct (getattr (thread, a) (slots l)) as [c|] eqn:E; [reflexivity |].
  cbn. destruct (slot_eqb (thread, a) s) eqn:Es; [| reflexivity].
  apply slot_eqb_eq in Es. congruence.
Qed.

End ClientCache.

(** X17: after any history of accesses to [_client] and [_clientv2] from
    any threads, an access returns a client built from the file system's
    access token for the API asked for; a second access from the same
    thread returns the same object and builds nothing; an access from
    another thread, or to the other API, returns a different object. *)
Theorem clients_are_per_thread :
  forall (token : string) (hist : list Clients.slot)
         (a1 a2 : Clients.api) (t1 t2 : nat),
    let l := Clients.after token hist Clients.fresh in
    let r1 := Clients.cached token a1 t1 l in
    let r2 := Clients.cached token a2 t2 (snd r1) in
    Clients.c_token (fst r1) = token
    /\ Clients.c_api (fst r1) = a1
    /\ ((t1, a1) = (t2, a2) -> fst r2 = fst r1 /\ snd r2 = snd r1)
    /\ ((t1, a1) <> (t2, a2) ->
        Clients.c_oid (fst r2) <> Clients.c_oid (fst r1)).
Proof.
  intros token hist a1 a2 t1 t2 l r1 r2.
  assert (Hl : Clients.well_formed token l /\ Clients.distinct_clients l)
    by (apply after_keeps, fresh_ok).
  assert (H1 : Clients.well_formed token (snd r1)
               /\ Clients.distinct_clients (snd r1))
    by (now apply cached_keeps).
  assert (H2 : Clients.well_formed token (snd r2)
               /\ Clients.distinct_clients (snd r2))
    by (now apply cached_keeps).
  pose proof (cached_stores token a1 t1 l) as S1. fold r1 in S1.
  pose proof (cached_stores token a2 t2 (snd r1)) as S2. fold r2 in S2.
  destruct (proj1 H1 _ _ S1) as [Htok [Hapi _]].
  split; [exact Htok |]. split; [exact Hapi |]. split.
  - intros E. inversion E; subst t2 a2.
    unfold r2, Clients.cached. now rewrite S1.
  - intros Hne Ho.
    assert (S1' : Clients.getattr (t1, a1) (Clients.slots (snd r2))
                  = Some (fst r1)).
    { unfold r2. rewrite cached_frames by exact Hne. exact S1. }
    pose proof (proj2 H2 _ _ _ _ S2 S1' Ho) as E.
    apply slot_eqb_eq in E. congruence.
Qed.

Lemma clients_are_per_thread_witness :
  fst (Clients._clientv2 "token" 1
         (snd (Clients._clientv2 "token" 1 Clients.fresh)))
  = fst (Clients._clientv2 "token" 1 Clients.fresh)
  /\ Clients.c_oid (fst (Clients._clientv2 "token" 2
                           (snd (Clients._clientv2 "token" 1 Clients.fresh))))
     <> Clients.c_oid (fst (Clients._clientv2 "token" 1 Clients.fresh)).
Proof.
  split.
  - exact (proj1 (proj1 (proj2 (proj2
             (clients_are_per_thread "token" [] Clients.V2 Clients.V2 1 1)))
             eq_refl)).
  - apply (proj2 (proj2 (proj2
             (clients_are_per_thread "token" [] Clients.V2 Clients.V2 1 2)))).
    discriminate.
Defined.
